(** * Flowy canvas engine: a shallow embedding of the workflow utilities
    (src/lib/utils.ts) and of the handlers of the current Canvas component
    (src/unnamed/part_001; src/lib/Canvas.tsx is an earlier revision whose
    snapping, node-change and connection code is the same), with proofs of
    its specification.

    Numbers of the TypeScript code (positions, scales, client coordinates)
    are modelled as exact rationals [Q]; handle indices are natural numbers
    and node and wire ids are strings.  Each React handler becomes a pure
    function from the values it reads (props, state, event) to the values it
    writes (next state, the workflow handed to [onWorkflowChange], callback
    invocations). *)

From Stdlib Require Import List String Ascii Bool Arith Lia QArith Qminmax Qabs.
From Stdlib Require Import Lqa.
Import ListNotations.
Open Scope string_scope.
Open Scope list_scope.
Set Warnings "-register-all".

(* ------------------------------------------------------------------ *)
(** ** Data model (src/lib/types.ts) *)

Inductive HandleType := HInput | HOutput.

Definition handle_eqb (a b : HandleType) : bool :=
  match a, b with
  | HInput, HInput | HOutput, HOutput => true
  | _, _ => false
  end.

(** JavaScript values, as far as [JSON.stringify]/[JSON.parse] and the
    [any]-typed [data] field of a node need them. *)
Inductive jsval :=
| JUndef
| JNull
| JBool (b : bool)
| JNum (q : Q)
| JStr (s : string)
| JArr (xs : list jsval)
| JObj (props : list (string * jsval)).

Record Position := mkPos { x : Q; y : Q }.

Record NodeData := mkNode {
  id : string;
  type : string;
  position : Position;
  data : jsval
}.

Record WireData := mkWire {
  wire_id : string;
  sourceNodeId : string;
  targetNodeId : string;
  sourceOutput : option string;   (* [sourceOutput?: string] *)
  targetInput : option string     (* [targetInput?: string] *)
}.

Record WorkflowData := mkWorkflow {
  nodes : list NodeData;
  wires : list WireData
}.

(** [Number.prototype.toString] on a non-negative integer: its decimal digits. *)
Fixpoint digits_aux (fuel n : nat) (acc : string) : string :=
  match fuel with
  | O => acc
  | S f =>
      let acc' := String (ascii_of_nat (48 + Nat.modulo n 10)) acc in
      if Nat.ltb n 10 then acc' else digits_aux f (Nat.div n 10) acc'
  end.

Definition number_toString (n : nat) : string := digits_aux (S n) n "".

Definition opt_string_eqb (a b : option string) : bool :=
  match a, b with
  | None, None => true
  | Some s, Some t => String.eqb s t
  | _, _ => false
  end.

(* ------------------------------------------------------------------ *)
(** ** Connection state (Canvas.tsx, [ConnectionState] and its handlers) *)

Record ConnectionState := mkConn {
  isConnecting : bool;
  conn_sourceNodeId : option string;
  sourceType : option HandleType;
  sourceIndex : option nat;
  currentPosition : option Position;
  hasMouseMoved : bool
}.

(** The literal every handler writes to cancel or finish a gesture. *)
Definition idle_connection : ConnectionState :=
  mkConn false None None None None false.

(** [handleStartConnection]. *)
Definition handleStartConnection (nodeId : string) (ty : HandleType)
    (index : nat) (pos : Position) : ConnectionState :=
  mkConn true (Some nodeId) (Some ty) (Some index) (Some pos) false.

(** [handleMouseMove] (the document listener installed while connecting);
    [canvasX]/[canvasY] are already converted to world coordinates. *)
Definition handleMouseMove (isSidebarOpen : bool) (cs : ConnectionState)
    (canvasX canvasY : Q) : ConnectionState :=
  if isConnecting cs && negb isSidebarOpen then
    mkConn (isConnecting cs) (conn_sourceNodeId cs) (sourceType cs)
      (sourceIndex cs) (Some (mkPos canvasX canvasY)) true
  else cs.

(** A JavaScript string is falsy exactly when it is empty. *)
Definition truthy_string (s : option string) : bool :=
  match s with
  | None => false
  | Some s => negb (String.eqb s "")
  end.

(** The four fields compared by the de-duplication test of
    [handleEndConnection]. *)
Definition same_connection (w nw : WireData) : bool :=
  String.eqb (sourceNodeId w) (sourceNodeId nw) &&
  String.eqb (targetNodeId w) (targetNodeId nw) &&
  opt_string_eqb (sourceOutput w) (sourceOutput nw) &&
  opt_string_eqb (targetInput w) (targetInput nw).

(** The wire built by [handleEndConnection] once the gesture is accepted;
    [wireId] stands for the generated [wire-<time>-<random>] id. *)
Definition new_wire (cs : ConnectionState) (s wireId nodeId : string)
    (index : nat) : WireData :=
  let isSourceOutput :=
    match sourceType cs with Some HOutput => true | _ => false end in
  mkWire wireId
    (if isSourceOutput then s else nodeId)
    (if isSourceOutput then nodeId else s)
    (if isSourceOutput then option_map number_toString (sourceIndex cs)
     else Some (number_toString index))
    (if isSourceOutput then Some (number_toString index)
     else option_map number_toString (sourceIndex cs)).

(** The updater passed to [onWorkflowChange]. *)
Definition add_wire_if_absent (newWire : WireData) (prev : WorkflowData)
    : WorkflowData :=
  let wireExists := existsb (fun w => same_connection w newWire) (wires prev) in
  if negb wireExists then mkWorkflow (nodes prev) (wires prev ++ [newWire])
  else prev.

(** [handleEndConnection]: the pointer is released over handle [index] of
    type [ty] on node [nodeId]; returns the next connection state and the
    next workflow. *)
Definition handleEndConnection (cs : ConnectionState) (wireId : string)
    (nodeId : string) (ty : HandleType) (index : nat) (prev : WorkflowData)
    : ConnectionState * WorkflowData :=
  if negb (isConnecting cs) || negb (truthy_string (conn_sourceNodeId cs))
  then (cs, prev)
  else
    let s := match conn_sourceNodeId cs with Some s => s | None => "" end in
    let same_type :=
      match sourceType cs with Some t => handle_eqb t ty | None => false end in
    if String.eqb s nodeId || same_type then (idle_connection, prev)
    else (idle_connection,
          add_wire_if_absent (new_wire cs s wireId nodeId index) prev).

(* ------------------------------------------------------------------ *)
(** ** Viewport and canvas clicks *)

Record ViewportTransform := mkVT { tx : Q; ty : Q; scale : Q }.

(** The part of [getBoundingClientRect()] the handlers read. *)
Record Rect := mkRect { rect_left : Q; rect_top : Q }.

(** The DOM element an event is dispatched to: whether it is the canvas
    [div] itself ([target === canvasRef.current]) and its [tagName]. *)
Record EventTarget := mkTarget { is_canvas_div : bool; tagName : string }.

Definition is_background (t : EventTarget) : bool :=
  is_canvas_div t || String.eqb (tagName t) "svg".

(** The argument of [onRequestNodeCreation]; the [!] assertions of the
    source do not change the values, so the fields keep their option type. *)
Record NodeCreationRequest := mkRequest {
  req_sourceNodeId : option string;
  req_sourceType : option HandleType;
  req_sourceIndex : option nat;
  req_position : Position
}.

(** Screen-to-world conversion used by [handleMouseMove] and
    [handleCanvasClick]. *)
Definition client_to_world (r : Rect) (vt : ViewportTransform)
    (clientX clientY : Q) : Position :=
  mkPos ((clientX - rect_left r - tx vt) / scale vt)
        ((clientY - rect_top r - ty vt) / scale vt).

(** [handleCanvasClick]: the [click] listener of the canvas [div].
    [hasCallback] says whether the host passed [onRequestNodeCreation];
    [rect] is [canvasRef.current?.getBoundingClientRect()].  The result is
    the next selection, the next connection state and the list of
    [onRequestNodeCreation] calls made. *)
Definition handleCanvasClick (isPanning : bool) (target : EventTarget)
    (rect : option Rect) (vt : ViewportTransform) (hasCallback : bool)
    (cs : ConnectionState) (selected : list string) (clientX clientY : Q)
    : list string * ConnectionState * list NodeCreationRequest :=
  if isPanning then (selected, cs, [])
  else if is_background target then
    if isConnecting cs && hasMouseMoved cs && hasCallback then
      match rect with
      | Some r =>
          let p := client_to_world r vt clientX clientY in
          ([],
           mkConn (isConnecting cs) (conn_sourceNodeId cs) (sourceType cs)
             (sourceIndex cs) (Some p) (hasMouseMoved cs),
           [mkRequest (conn_sourceNodeId cs) (sourceType cs)
              (sourceIndex cs) p])
      | None => ([], cs, [])
      end
    else ([], cs, [])
  else (selected, cs, []).

Definition find_node (nid : string) (ns : list NodeData) : option NodeData :=
  find (fun n => String.eqb (id n) nid) ns.

(** The guard of the temporary connection line rendered in the SVG layer
    ([connectionState.isConnecting && currentPosition && sourceNodeId &&
    sourceIndex !== null && hasMouseMoved], then the source node lookup). *)
Definition temp_wire_visible (w : WorkflowData) (cs : ConnectionState) : bool :=
  isConnecting cs &&
  match currentPosition cs, conn_sourceNodeId cs, sourceIndex cs with
  | Some _, Some s, Some _ =>
      negb (String.eqb s "") && hasMouseMoved cs &&
      match find_node s (nodes w) with Some _ => true | None => false end
  | _, _, _ => false
  end.

(** Number of wires of [ws] with the same endpoints and handles as [nw]. *)
Definition count_same (nw : WireData) (ws : list WireData) : nat :=
  List.length (filter (fun w => same_connection w nw) ws).

(** One full connection gesture: pointer-down on handle [i] of node [s],
    pointer-up over handle [idx] of node [nodeId]. *)
Definition connect_gesture (s : string) (t : HandleType) (i : nat)
    (start : Position) (wireId nodeId : string) (ty : HandleType)
    (idx : nat) (w : WorkflowData) : WorkflowData :=
  snd (handleEndConnection (handleStartConnection s t i start)
         wireId nodeId ty idx w).

(* ------------------------------------------------------------------ *)
(** ** Alignment snapping ([calculateSnapping]) *)

Definition SNAP_THRESHOLD : Q := 8.
Definition NODE_WIDTH : Q := 160.
Definition NODE_HEIGHT : Q := 80.

(** Strict [<] on numbers. *)
Definition Qltb (a b : Q) : bool := negb (Qle_bool b a).

Inductive GuideType := Vertical | Horizontal.

Record AlignmentGuide := mkGuide {
  guide_type : GuideType;
  guide_position : Q;
  nodeIds : list string;
  start : Q;
  end_ : Q
}.

(** Loop state of [calculateSnapping]: [snappedX], [snappedY], [guides]. *)
Record SnapAcc := mkAcc { snappedX : Q; snappedY : Q; guides : list AlignmentGuide }.

(** One iteration of the [for (const otherNode of otherNodes)] loop: the
    three vertical tests (centre, left, right) then the three horizontal
    ones (centre, top, bottom), each snapping and pushing a guide. *)
Definition snap_step (d : NodeData) (acc : SnapAcc) (o : NodeData) : SnapAcc :=
  if String.eqb (id o) (id d) then acc else
  let dx := x (position d) in let dy := y (position d) in
  let ox := x (position o) in let oy := y (position o) in
  let draggedCenterX := dx + NODE_WIDTH / 2 in
  let draggedCenterY := dy + NODE_HEIGHT / 2 in
  let draggedLeft := dx in let draggedRight := dx + NODE_WIDTH in
  let draggedTop := dy in let draggedBottom := dy + NODE_HEIGHT in
  let otherCenterX := ox + NODE_WIDTH / 2 in
  let otherCenterY := oy + NODE_HEIGHT / 2 in
  let otherLeft := ox in let otherRight := ox + NODE_WIDTH in
  let otherTop := oy in let otherBottom := oy + NODE_HEIGHT in
  let vguide p := mkGuide Vertical p [id d; id o]
                    (Qmin draggedTop otherTop - 5)
                    (Qmax draggedBottom otherBottom + 5) in
  let hguide p := mkGuide Horizontal p [id d; id o]
                    (Qmin draggedLeft otherLeft - 5)
                    (Qmax draggedRight otherRight + 5) in
  let vtest a b p (sg : Q * list AlignmentGuide) :=
    if Qltb (Qabs (a - b)) SNAP_THRESHOLD
    then (ox, snd sg ++ [vguide p]) else sg in
  let htest a b p (sg : Q * list AlignmentGuide) :=
    if Qltb (Qabs (a - b)) SNAP_THRESHOLD
    then (oy, snd sg ++ [hguide p]) else sg in
  let '(sx, gs) :=
    vtest draggedRight otherRight otherRight
      (vtest draggedLeft otherLeft otherLeft
        (vtest draggedCenterX otherCenterX otherCenterX
          (snappedX acc, guides acc))) in
  let '(sy, gs) :=
    htest draggedBottom otherBottom otherBottom
      (htest draggedTop otherTop otherTop
        (htest draggedCenterY otherCenterY otherCenterY
          (snappedY acc, gs))) in
  mkAcc sx sy gs.

Definition calculateSnapping (draggedNode : NodeData) (otherNodes : list NodeData)
    : Position * list AlignmentGuide :=
  let acc := fold_left (snap_step draggedNode) otherNodes
               (mkAcc (x (position draggedNode)) (y (position draggedNode)) []) in
  (mkPos (snappedX acc) (snappedY acc), guides acc).

(* ------------------------------------------------------------------ *)
(** ** Node updates and deletion *)

Definition with_position (n : NodeData) (p : Position) : NodeData :=
  mkNode (id n) (type n) p (data n).

(** [handleNodeChange]: the updater handed to [onWorkflowChange]. *)
Definition handleNodeChange (updatedNode : NodeData) (isDragging : bool)
    (prev : WorkflowData) : WorkflowData :=
  let otherNodes := filter (fun n => negb (String.eqb (id n) (id updatedNode)))
                      (nodes prev) in
  let finalNode :=
    if isDragging
    then with_position updatedNode (fst (calculateSnapping updatedNode otherNodes))
    else updatedNode in
  mkWorkflow
    (map (fun n => if String.eqb (id n) (id updatedNode) then finalNode else n)
       (nodes prev))
    (wires prev).

(** [Partial<NodeData>]: each field may be absent. *)
Record NodeUpdate := mkUpdate {
  upd_id : option string;
  upd_type : option string;
  upd_position : option Position;
  upd_data : option jsval
}.

Definition merge_update (n : NodeData) (u : NodeUpdate) : NodeData :=
  mkNode (match upd_id u with Some v => v | None => id n end)
         (match upd_type u with Some v => v | None => type n end)
         (match upd_position u with Some v => v | None => position n end)
         (match upd_data u with Some v => v | None => data n end).

(** [updateNodeInWorkflow] (utils.ts). *)
Definition updateNodeInWorkflow (w : WorkflowData) (nodeId : string)
    (updates : NodeUpdate) : WorkflowData :=
  mkWorkflow
    (map (fun n => if String.eqb (id n) nodeId then merge_update n updates else n)
       (nodes w))
    (wires w).

(** Modelled from the spec: the Node component (src/lib/Node.tsx, not part
    of the sources) reports a drag of node [n] to [p] through
    [onNodeChange(updatedNode, true)]; nodes are "mutated only via position
    updates from drag/snap", so [updatedNode] is [n] with its position
    replaced. *)
Definition node_drag_update (n : NodeData) (p : Position) : NodeData :=
  with_position n p.

(** [removeNodeFromWorkflow] (utils.ts). *)
Definition removeNodeFromWorkflow (w : WorkflowData) (nodeId : string)
    : WorkflowData :=
  mkWorkflow
    (filter (fun n => negb (String.eqb (id n) nodeId)) (nodes w))
    (filter (fun e => negb (String.eqb (sourceNodeId e) nodeId) &&
                      negb (String.eqb (targetNodeId e) nodeId)) (wires w)).

(** [handleNodeDelete] (Canvas): the updater handed to [onWorkflowChange]. *)
Definition handleNodeDelete (nodeId : string) (prev : WorkflowData)
    : WorkflowData :=
  let updatedNodes := filter (fun n => negb (String.eqb (id n) nodeId)) (nodes prev) in
  let updatedWires :=
    filter (fun e => negb (String.eqb (sourceNodeId e) nodeId) &&
                     negb (String.eqb (targetNodeId e) nodeId)) (wires prev) in
  mkWorkflow updatedNodes updatedWires.

(* ------------------------------------------------------------------ *)
(** ** Zoom: controls, wheel and pinch *)

(** [getContentCenter]: screen position of the centre of the node with the
    smallest [x + y] (the first one on ties), or the canvas centre. *)
Definition getContentCenter (ns : list NodeData) (width height : Q)
    (vt : ViewportTransform) : Position :=
  match ns with
  | [] => mkPos (width / 2) (height / 2)
  | n0 :: rest =>
      let topLeftNode :=
        fold_left (fun closest node =>
          if Qltb (x (position node) + y (position node))
                  (x (position closest) + y (position closest))
          then node else closest) rest n0 in
      let nodeCenterX := x (position topLeftNode) + NODE_WIDTH / 2 in
      let nodeCenterY := y (position topLeftNode) + NODE_HEIGHT / 2 in
      mkPos (nodeCenterX * scale vt + tx vt) (nodeCenterY * scale vt + ty vt)
  end.

(** Zoom about a screen anchor: [translate' = anchor - (anchor - translate) *
    (newScale / scale)], shared by every zoom handler. *)
Definition zoom_about (vt : ViewportTransform) (ax ay newScale : Q)
    : ViewportTransform :=
  let scaleDelta := newScale / scale vt in
  mkVT (ax - (ax - tx vt) * scaleDelta) (ay - (ay - ty vt) * scaleDelta) newScale.

(** "Snap to 100% if close". *)
Definition snap_to_one (s : Q) : Q := if Qltb (Qabs (s - 1)) 0.1 then 1 else s.

(** [zoomIn]: the zoom-in button; [contentCenter] is [getContentCenter()]. *)
Definition zoomIn (vt : ViewportTransform) (contentCenter : Position)
    : ViewportTransform :=
  let newScale := snap_to_one (Qmin 3 (scale vt + 0.2)) in
  if negb (Qeq_bool newScale (scale vt))
  then zoom_about vt (x contentCenter) (y contentCenter) newScale
  else vt.

(** [zoomOut]: the zoom-out button. *)
Definition zoomOut (vt : ViewportTransform) (contentCenter : Position)
    : ViewportTransform :=
  let newScale := snap_to_one (Qmax 0.1 (scale vt - 0.2)) in
  if negb (Qeq_bool newScale (scale vt))
  then zoom_about vt (x contentCenter) (y contentCenter) newScale
  else vt.

(** The fields of a [WheelEvent] the handler reads. *)
Record WheelEvent := mkWheel {
  ctrlKey : bool;
  deltaY : Q;
  wheel_clientX : Q;
  wheel_clientY : Q
}.

(** [deltaY % 1 !== 0]: the delta is not an integer. *)
Definition is_fractional (q : Q) : bool :=
  negb (Z.eqb (Z.modulo (Qnum q) (Zpos (Qden q))) 0).

(** [shouldZoom] of [handleWheel]. *)
Definition wheel_should_zoom (isMac : bool) (ev : WheelEvent) : bool :=
  let dY := deltaY ev in
  let isTrackpadPinch := ctrlKey ev in
  let isTrackpadScroll :=
    negb (ctrlKey ev) && Qltb (Qabs dY) 50 && is_fractional dY in
  let isCtrlScroll := ctrlKey ev && Qle_bool 50 (Qabs dY) in
  if isMac then isTrackpadPinch || isTrackpadScroll || isCtrlScroll
  else negb (ctrlKey ev).

(** [zoomFactor] of [handleWheel]. *)
Definition wheel_zoom_factor (isMac : bool) (ev : WheelEvent) : Q :=
  let dY := deltaY ev in
  let isTrackpadPinch := ctrlKey ev in
  let isTrackpadScroll :=
    negb (ctrlKey ev) && Qltb (Qabs dY) 50 && is_fractional dY in
  if isMac then
    if isTrackpadPinch then Qabs dY * 0.001
    else if isTrackpadScroll then Qabs dY * 0.01
    else 0.1
  else 0.1.

(** [handleWheel]: [None] when the handler returns early and leaves the
    event to the browser, otherwise the next viewport transform. *)
Definition handleWheel (isMac : bool) (rect : option Rect)
    (vt : ViewportTransform) (ev : WheelEvent) : option ViewportTransform :=
  if negb (wheel_should_zoom isMac ev) then None else
  let zoomFactor := wheel_zoom_factor isMac ev in
  let zoomDirection : Q := if Qltb 0 (deltaY ev) then -1 else 1 in
  let newScale := Qmax 0.1 (Qmin 3 (scale vt + zoomDirection * zoomFactor)) in
  match rect with
  | Some r =>
      if negb (Qeq_bool newScale (scale vt))
      then Some (zoom_about vt (wheel_clientX ev - rect_left r)
                   (wheel_clientY ev - rect_top r) newScale)
      else Some vt
  | None => Some vt
  end.

(** Pinch state recorded by [handleTouchStart]. *)
Record TouchState := mkTouch {
  initialDistance : Q;
  initialScale : Q;
  initialCenter : Position
}.

(** The JavaScript numbers [distance / initialDistance] can produce: a
    finite value, an infinity of either sign ([JsInf true] is [Infinity])
    or [NaN]. *)
Inductive jsnum := JsFin (q : Q) | JsInf (positive : bool) | JsNaN.

(** [a / b] on two finite numbers; a divisor [0] is [+0], as every
    distance is a square root. *)
Definition js_div (a b : Q) : jsnum :=
  if Qeq_bool b 0 then
    if Qeq_bool a 0 then JsNaN else JsInf (Qltb 0 a)
  else JsFin (a / b).

(** [a * b] with [a] finite. *)
Definition js_mul (a : Q) (b : jsnum) : jsnum :=
  match b with
  | JsFin q => JsFin (a * q)
  | JsInf p => if Qeq_bool a 0 then JsNaN else JsInf (Bool.eqb p (Qltb 0 a))
  | JsNaN => JsNaN
  end.

(** [Math.min(a, b)] and [Math.max(a, b)] with [a] finite. *)
Definition js_min (a : Q) (b : jsnum) : jsnum :=
  match b with
  | JsFin q => JsFin (Qmin a q)
  | JsInf true => JsFin a
  | JsInf false => JsInf false
  | JsNaN => JsNaN
  end.

Definition js_max (a : Q) (b : jsnum) : jsnum :=
  match b with
  | JsFin q => JsFin (Qmax a q)
  | JsInf true => JsInf true
  | JsInf false => JsFin a
  | JsNaN => JsNaN
  end.

(** [handleTouchMove] with two touches; [distance] is the current
    inter-finger distance ([getTouchDistance]).  [None] stands for the
    transform [{ x: NaN, y: NaN, scale: NaN }] the handler sets when
    [newScale] is [NaN] (then [scaleDelta] is [NaN] too); [newScale] is
    never infinite, being clamped by [Math.min(3, _)] and
    [Math.max(0.1, _)]. *)
Definition handlePinchMove (ts : TouchState) (vt : ViewportTransform)
    (distance : Q) : option ViewportTransform :=
  let scaleChange := js_div distance (initialDistance ts) in
  match js_max 0.1 (js_min 3 (js_mul (initialScale ts) scaleChange)) with
  | JsFin newScale =>
      Some (zoom_about vt (x (initialCenter ts)) (y (initialCenter ts)) newScale)
  | JsInf _ | JsNaN => None
  end.

(* ------------------------------------------------------------------ *)
(** ** Serialization ([serializeWorkflow], [deserializeWorkflow]) *)

(** The JavaScript object a [WorkflowData] value is: a wire built with
    [createWire] without handle indices holds [undefined] in those fields. *)
Definition opt_to_js (o : option string) : jsval :=
  match o with Some s => JStr s | None => JUndef end.

Definition node_to_js (n : NodeData) : jsval :=
  JObj [("id", JStr (id n)); ("type", JStr (type n));
        ("position", JObj [("x", JNum (x (position n))); ("y", JNum (y (position n)))]);
        ("data", data n)].

Definition wire_to_js (e : WireData) : jsval :=
  JObj [("id", JStr (wire_id e)); ("sourceNodeId", JStr (sourceNodeId e));
        ("targetNodeId", JStr (targetNodeId e));
        ("sourceOutput", opt_to_js (sourceOutput e));
        ("targetInput", opt_to_js (targetInput e))].

Definition workflow_to_js (w : WorkflowData) : jsval :=
  JObj [("nodes", JArr (map node_to_js (nodes w)));
        ("wires", JArr (map wire_to_js (wires w)))].

(** A JSON text, represented by the document it denotes (indentation does
    not matter), or a text [JSON.parse] rejects. *)
Inductive JsonText := JsonDoc (v : jsval) | InvalidJson.

(** The document [JSON.stringify] writes for a value: [None] for
    [undefined]; an [undefined] array element is written [null] and an
    [undefined] property is left out. *)
Fixpoint to_json (v : jsval) : option jsval :=
  match v with
  | JUndef => None
  | JArr xs =>
      Some (JArr (map (fun e => match to_json e with Some j => j | None => JNull end) xs))
  | JObj ps =>
      Some (JObj (flat_map (fun '(k, e) =>
                    match to_json e with Some j => [(k, j)] | None => [] end) ps))
  | v => Some v
  end.

Definition JSON_stringify (v : jsval) : JsonText :=
  match to_json v with Some j => JsonDoc j | None => InvalidJson end.

Definition JSON_parse (t : JsonText) : option jsval :=
  match t with JsonDoc v => Some v | InvalidJson => None end.

(** Property read [v.key]: [None] when it throws (on [null] and
    [undefined]); an object with no such key reads [undefined]. *)
Definition get_prop (v : jsval) (key : string) : option jsval :=
  match v with
  | JUndef | JNull => None
  | JObj ps =>
      Some (match find (fun p => String.eqb (fst p) key) ps with
            | Some (_, e) => e | None => JUndef end)
  | _ => Some JUndef
  end.

Definition js_truthy (v : jsval) : bool :=
  match v with
  | JUndef | JNull => false
  | JBool b => b
  | JNum q => negb (Qeq_bool q 0)
  | JStr s => negb (String.eqb s "")
  | JArr _ | JObj _ => true
  end.

(** [a || b]. *)
Definition js_or (a b : jsval) : jsval := if js_truthy a then a else b.

Definition createWorkflow_empty : jsval := JObj [("nodes", JArr []); ("wires", JArr [])].

Definition serializeWorkflow (w : WorkflowData) : JsonText :=
  JSON_stringify (workflow_to_js w).

(** [deserializeWorkflow]: the [try] block, or [createWorkflow()] when
    [JSON.parse] or a property read throws. *)
Definition deserializeWorkflow (json : JsonText) : jsval :=
  match JSON_parse json with
  | None => createWorkflow_empty
  | Some parsed =>
      match get_prop parsed "nodes", get_prop parsed "wires" with
      | Some ns, Some ws =>
          JObj [("nodes", js_or ns (JArr [])); ("wires", js_or ws (JArr []))]
      | _, _ => createWorkflow_empty
      end
  end.

(** Two JavaScript values hold the same document when every property read
    agrees: a property holding [undefined] reads like an absent one.
    [js_normalize] drops such properties. *)
Fixpoint js_normalize (v : jsval) : jsval :=
  match v with
  | JArr xs => JArr (map js_normalize xs)
  | JObj ps =>
      JObj (flat_map (fun '(k, e) =>
              match e with JUndef => [] | _ => [(k, js_normalize e)] end) ps)
  | v => v
  end.

Definition js_same (a b : jsval) : Prop := js_normalize a = js_normalize b.

Definition is_undef (v : jsval) : bool :=
  match v with JUndef => true | _ => false end.

(** A value JSON represents: no [undefined] element in any array. *)
Fixpoint json_safe (v : jsval) : bool :=
  match v with
  | JArr xs => forallb (fun e => negb (is_undef e) && json_safe e) xs
  | JObj ps => forallb (fun '(_, e) => json_safe e) ps
  | _ => true
  end.

(** Well-formed workflow: the [data] of every node is JSON data. *)
Definition workflow_json_safe (w : WorkflowData) : bool :=
  forallb (fun n => json_safe (data n)) (nodes w).

(* ------------------------------------------------------------------ *)
(** ** Auxiliary notions used in the statements *)

(** A draft with its [hasMouseMoved] flag overwritten. *)
Definition set_moved (cs : ConnectionState) (b : bool) : ConnectionState :=
  mkConn (isConnecting cs) (conn_sourceNodeId cs) (sourceType cs)
    (sourceIndex cs) (currentPosition cs) b.

(** Referential integrity: every wire's endpoints are nodes of the workflow. *)
Definition wires_reference_nodes (w : WorkflowData) : Prop :=
  forall e, In e (wires w) ->
    (exists n, In n (nodes w) /\ id n = sourceNodeId e) /\
    (exists n, In n (nodes w) /\ id n = targetNodeId e).

Definition guide_type_eqb (a b : GuideType) : bool :=
  match a, b with
  | Vertical, Vertical | Horizontal, Horizontal => true
  | _, _ => false
  end.

Definition count_type (t : GuideType) (gs : list AlignmentGuide) : nat :=
  List.length (filter (fun g => guide_type_eqb (guide_type g) t) gs).

(** The outcomes of the three vertical tests (centre, left, right) and of
    the three horizontal tests (centre, top, bottom) of [calculateSnapping]
    for dragged node [d] against node [o]. *)
Definition vtests (d o : NodeData) : list bool :=
  let dx := x (position d) in let ox := x (position o) in
  [Qltb (Qabs (dx + NODE_WIDTH / 2 - (ox + NODE_WIDTH / 2))) SNAP_THRESHOLD;
   Qltb (Qabs (dx - ox)) SNAP_THRESHOLD;
   Qltb (Qabs (dx + NODE_WIDTH - (ox + NODE_WIDTH))) SNAP_THRESHOLD].

Definition htests (d o : NodeData) : list bool :=
  let dy := y (position d) in let oy := y (position o) in
  [Qltb (Qabs (dy + NODE_HEIGHT / 2 - (oy + NODE_HEIGHT / 2))) SNAP_THRESHOLD;
   Qltb (Qabs (dy - oy)) SNAP_THRESHOLD;
   Qltb (Qabs (dy + NODE_HEIGHT - (oy + NODE_HEIGHT))) SNAP_THRESHOLD].

(** Number of matching tests of a list of outcomes for an other node
    (the dragged node itself is skipped by the loop). *)
Definition matches (d o : NodeData) (ts : list bool) : nat :=
  if String.eqb (id o) (id d) then 0
  else List.length (filter (fun b => b) ts).

(** The last node of [others], in iteration order, with at least one
    matching test among [tests d o]. *)
Definition last_match (tests : NodeData -> NodeData -> list bool)
    (d : NodeData) (others : list NodeData) : option NodeData :=
  find (fun o => negb (String.eqb (id o) (id d)) && existsb (fun b => b) (tests d o))
    (rev others).

(** Induction over JavaScript values, through the elements of arrays and
    the property values of objects. *)
Section JsvalInd.
Variable P : jsval -> Prop.
Hypothesis HUndef : P JUndef.
Hypothesis HNull : P JNull.
Hypothesis HBool : forall b, P (JBool b).
Hypothesis HNum : forall q, P (JNum q).
Hypothesis HStr : forall s, P (JStr s).
Hypothesis HArr : forall xs, Forall P xs -> P (JArr xs).
Hypothesis HObj : forall ps, Forall (fun p => P (snd p)) ps -> P (JObj ps).

Fixpoint jsval_ind' (v : jsval) : P v :=
  match v with
  | JUndef => HUndef
  | JNull => HNull
  | JBool b => HBool b
  | JNum q => HNum q
  | JStr s => HStr s
  | JArr xs =>
      HArr xs ((fix go (l : list jsval) : Forall P l :=
                  match l with
                  | [] => Forall_nil _
                  | e :: l' => Forall_cons _ (jsval_ind' e) (go l')
                  end) xs)
  | JObj ps =>
      HObj ps ((fix go (l : list (string * jsval))
                  : Forall (fun p => P (snd p)) l :=
                  match l with
                  | [] => Forall_nil _
                  | (k, e) :: l' => Forall_cons (k, e) (jsval_ind' e) (go l')
                  end) ps)
  end.
End JsvalInd.

(* ------------------------------------------------------------------ *)
(** ** Workflow utilities (src/lib/utils.ts) *)

(** Own properties of a plain object, in insertion order. *)
Definition props_lookup (ps : list (string * jsval)) (k : string) : option jsval :=
  match find (fun p => String.eqb (fst p) k) ps with
  | Some (_, v) => Some v
  | None => None
  end.

(** [obj[k] = v] on a plain object: an existing key keeps its place and
    takes the new value, a new key is added last. *)
Definition js_set (ps : list (string * jsval)) (k : string) (v : jsval)
    : list (string * jsval) :=
  if existsb (fun p => String.eqb (fst p) k) ps
  then map (fun p => if String.eqb (fst p) k then (k, v) else p) ps
  else ps ++ [(k, v)].

(** [{ title: type, ...data }]: the spread copies the own properties of
    [data] one after the other.  (The key order of the resulting object,
    where JavaScript lists integer-like keys first, is not modelled: the
    statements only read properties.) *)
Definition spread_into (base ps : list (string * jsval)) : list (string * jsval) :=
  fold_left (fun acc p => js_set acc (fst p) (snd p)) ps base.

(** [createNode]; [None] for [data] is the omitted argument, which
    defaults to [{}]. *)
Definition createNode (nid : string) (ty : string) (pos : Position)
    (data : option (list (string * jsval))) : NodeData :=
  let d := match data with Some d => d | None => [] end in
  mkNode nid ty pos (JObj (spread_into [("title", JStr ty)] d)).

(** [createWire]; the optional handle indices are [None] when omitted. *)
Definition createWire (wid sourceNodeId targetNodeId : string)
    (sourceOutput targetInput : option string) : WireData :=
  mkWire wid sourceNodeId targetNodeId sourceOutput targetInput.

Definition createWorkflow (ns : list NodeData) (ws : list WireData) : WorkflowData :=
  mkWorkflow ns ws.

Definition addNodeToWorkflow (w : WorkflowData) (node : NodeData) : WorkflowData :=
  mkWorkflow (nodes w ++ [node]) (wires w).

Definition addWireToWorkflow (w : WorkflowData) (wire : WireData) : WorkflowData :=
  mkWorkflow (nodes w) (wires w ++ [wire]).

Definition removeWireFromWorkflow (w : WorkflowData) (wireId : string) : WorkflowData :=
  mkWorkflow (nodes w) (filter (fun e => negb (String.eqb (wire_id e) wireId)) (wires w)).

(** [handleWireDelete] (Canvas): the updater handed to [onWorkflowChange]. *)
Definition handleWireDelete (wireId : string) (prev : WorkflowData) : WorkflowData :=
  mkWorkflow (nodes prev)
    (filter (fun e => negb (String.eqb (wire_id e) wireId)) (wires prev)).

(** [v?.length]: [undefined] on [null] and [undefined]; the element count
    of an array; the length of a string (the strings of the model are
    ASCII, one code unit per character); the [length] property of an
    object; [undefined] on numbers and booleans. *)
Definition js_length (v : jsval) : jsval :=
  match v with
  | JUndef | JNull | JBool _ | JNum _ => JUndef
  | JArr xs => JNum (inject_Z (Z.of_nat (List.length xs)))
  | JStr s => JNum (inject_Z (Z.of_nat (String.length s)))
  | JObj ps => match props_lookup ps "length" with Some e => e | None => JUndef end
  end.

(** [getHandlePosition]: [None] when [node.data.outputs] (or [inputs])
    throws, because [data] is [null] or [undefined], and when the handle
    count [length || 1] is not a number, where the arithmetic of the
    source leaves the numbers. *)
Definition getHandlePosition (node : NodeData) (isOutput : bool)
    (handleIndex : Q) : option Position :=
  let nodeWidth : Q := 160 in
  let nodeHeight : Q := 80 in
  match get_prop (data node) (if isOutput then "outputs" else "inputs") with
  | None => None
  | Some hs =>
      match js_or (js_length hs) (JNum 1) with
      | JNum total =>
          let topOffsetPercent :=
            if Qeq_bool total 1 then 50
            else ((handleIndex + 1) / (total + 1)) * 100 in
          Some (mkPos (if isOutput then x (position node) + nodeWidth
                       else x (position node))
                      (y (position node) + (nodeHeight * topOffsetPercent / 100)))
      | _ => None
      end
  end.

(* ------------------------------------------------------------------ *)
(** ** Wire rendering (src/lib/Wire.tsx) *)

(** White space skipped by [parseInt] (ASCII: tab to carriage return and
    space). *)
Definition is_js_space (c : ascii) : bool :=
  let n := nat_of_ascii c in (Nat.leb 9 n && Nat.leb n 13) || Nat.eqb n 32.

(** Value of a digit in radix up to 36: [0-9], [a-z], [A-Z]. *)
Definition digit_value (c : ascii) : option nat :=
  let n := nat_of_ascii c in
  if Nat.leb 48 n && Nat.leb n 57 then Some (n - 48)%nat
  else if Nat.leb 97 n && Nat.leb n 122 then Some (n - 87)%nat
  else if Nat.leb 65 n && Nat.leb n 90 then Some (n - 55)%nat
  else None.

Definition is_digit_of (radix : nat) (c : ascii) : bool :=
  match digit_value c with Some d => Nat.ltb d radix | None => false end.

(** The longest prefix of radix digits, accumulated into [acc]. *)
Fixpoint read_digits (radix : nat) (s : string) (acc : Z) : Z :=
  match s with
  | String c s' =>
      match digit_value c with
      | Some d => if Nat.ltb d radix
                  then read_digits radix s' (acc * Z.of_nat radix + Z.of_nat d)
                  else acc
      | None => acc
      end
  | EmptyString => acc
  end.

Fixpoint skip_spaces (s : string) : string :=
  match s with
  | String c s' => if is_js_space c then skip_spaces s' else s
  | EmptyString => s
  end.

(** [parseInt(s)] without a radix: leading white space, an optional sign,
    an optional [0x]/[0X] prefix selecting radix 16, then the longest
    prefix of digits; [None] is [NaN] (no digit). *)
Definition parseInt (s : string) : option Z :=
  let s1 := skip_spaces s in
  let '(sign, s2) :=
    match s1 with
    | String c s' =>
        if Ascii.eqb c "-"%char then ((-1)%Z, s')
        else if Ascii.eqb c "+"%char then (1%Z, s')
        else (1%Z, s1)
    | EmptyString => (1%Z, s1)
    end in
  let '(radix, s3) :=
    match s2 with
    | String c0 (String c s') =>
        if Ascii.eqb c0 "0"%char && (Ascii.eqb c "x"%char || Ascii.eqb c "X"%char)
        then (16%nat, s') else (10%nat, s2)
    | _ => (10%nat, s2)
    end in
  match s3 with
  | String c _ => if is_digit_of radix c
                  then Some (sign * read_digits radix s3 0)%Z else None
  | EmptyString => None
  end.

(** [wire.sourceOutput || '0']. *)
Definition handle_or_zero (o : option string) : string :=
  match o with
  | Some s => if String.eqb s "" then "0" else s
  | None => "0"
  end.

(** What the [Wire] component draws: nothing ([return null]) when an end
    node is missing, otherwise the path between the two connection points;
    [WireUnmodelled] when an index is [NaN] or a handle position leaves
    the numbers. *)
Inductive WireRender :=
| WireNull
| WirePath (src tgt : Position)
| WireUnmodelled.

Definition Wire_render (ns : list NodeData) (wire : WireData) : WireRender :=
  match find_node (sourceNodeId wire) ns, find_node (targetNodeId wire) ns with
  | Some sourceNode, Some targetNode =>
      match parseInt (handle_or_zero (sourceOutput wire)),
            parseInt (handle_or_zero (targetInput wire)) with
      | Some si, Some ti =>
          match getHandlePosition sourceNode true (inject_Z si),
                getHandlePosition targetNode false (inject_Z ti) with
          | Some sp, Some tp => WirePath sp tp
          | _, _ => WireUnmodelled
          end
      | _, _ => WireUnmodelled
      end
  | _, _ => WireNull
  end.

(* ------------------------------------------------------------------ *)
(** ** Selection and keyboard (Canvas) *)

(** The modifier keys of a mouse event. *)
Record MouseModifiers := mkMods { mod_ctrlKey : bool; mod_metaKey : bool }.

(** [handleNodeSelect]: the next [selectedNodeIds]; [event] is optional. *)
Definition handleNodeSelect (nodeId : string) (event : option MouseModifiers)
    (prev : list string) : list string :=
  let isMultiSelect :=
    match event with Some m => mod_ctrlKey m || mod_metaKey m | None => false end in
  if isMultiSelect then
    if existsb (String.eqb nodeId) prev
    then filter (fun i => negb (String.eqb i nodeId)) prev
    else prev ++ [nodeId]
  else [nodeId].

(** The selection updater queued by [handleNodeDelete]. *)
Definition handleNodeDelete_selection (nodeId : string) (prev : list string)
    : list string :=
  filter (fun i => negb (String.eqb i nodeId)) prev.

(** [handleKeyDown]: next selection, connection state and workflow, and
    whether [preventDefault] was called.  The updaters queued by the
    [handleNodeDelete] calls of [forEach] are applied in order, as React
    applies queued functional updates. *)
Definition handleKeyDown (key : string) (selectedNodeIds : list string)
    (cs : ConnectionState) (w : WorkflowData)
    : list string * ConnectionState * WorkflowData * bool :=
  if String.eqb key "Escape" then ([], cs, w, false)
  else if String.eqb key "Delete" && Nat.ltb 0 (List.length selectedNodeIds) then
    let w' := fold_left (fun acc n => handleNodeDelete n acc) selectedNodeIds w in
    let sel' := fold_left (fun acc n => handleNodeDelete_selection n acc)
                  selectedNodeIds selectedNodeIds in
    let cs' := if isConnecting cs then idle_connection else cs in
    (sel', cs', w', true)
  else (selectedNodeIds, cs, w, false).

(* ------------------------------------------------------------------ *)
(** ** Panning, touch and reset (Canvas) *)

(** [handleCanvasMouseDown]: next [isPanning], next [panStart], and
    whether [preventDefault] was called. *)
Definition handleCanvasMouseDown (target : EventTarget) (button : nat)
    (clientX clientY : Q) (vt : ViewportTransform) (isPanning : bool)
    (panStart : Position) : bool * Position * bool :=
  if is_background target && Nat.eqb button 0
  then (true, mkPos (clientX - tx vt) (clientY - ty vt), true)
  else (isPanning, panStart, false).

(** [handleCanvasMouseMove] (the document listener installed while
    panning), applied to the current transform. *)
Definition handleCanvasMouseMove (isPanning : bool) (panStart : Position)
    (vt : ViewportTransform) (clientX clientY : Q) : ViewportTransform :=
  if isPanning then mkVT (clientX - x panStart) (clientY - y panStart) (scale vt)
  else vt.

Record Touch := mkTouchPt { touch_clientX : Q; touch_clientY : Q }.

Definition getTouchCenter (t1 t2 : Touch) : Position :=
  mkPos ((touch_clientX t1 + touch_clientX t2) / 2)
        ((touch_clientY t1 + touch_clientY t2) / 2).

(** [handleTouchStart]: next touch state, [isPanning] and [panStart], and
    whether [preventDefault] was called.  [getTouchDistance] (a square
    root) is taken as an argument; the [lastTouchCenter] field, written
    but never read, is left out of [TouchState]. *)
Definition handleTouchStart (getTouchDistance : Touch -> Touch -> Q)
    (touches : list Touch) (target : EventTarget) (rect : option Rect)
    (vt : ViewportTransform) (ts : option TouchState) (isPanning : bool)
    (panStart : Position) : option TouchState * bool * Position * bool :=
  match touches with
  | [t1; t2] =>
      let distance := getTouchDistance t1 t2 in
      let center := getTouchCenter t1 t2 in
      match rect with
      | Some r =>
          let canvasCenter := mkPos (x center - rect_left r) (y center - rect_top r) in
          (Some (mkTouch distance (scale vt) canvasCenter), isPanning, panStart, true)
      | None => (ts, isPanning, panStart, true)
      end
  | [t] =>
      if is_background target
      then (ts, true, mkPos (touch_clientX t - tx vt) (touch_clientY t - ty vt), true)
      else (ts, isPanning, panStart, false)
  | _ => (ts, isPanning, panStart, false)
  end.

(** [handleTouchMove]: next transform ([None] for the [NaN] transform of
    [handlePinchMove]) and whether [preventDefault] was called. *)
Definition handleTouchMove (getTouchDistance : Touch -> Touch -> Q)
    (touches : list Touch) (ts : option TouchState) (isPanning : bool)
    (panStart : Position) (rect : option Rect) (vt : ViewportTransform)
    : option ViewportTransform * bool :=
  match touches, ts with
  | [t1; t2], Some s =>
      (match rect with
       | Some _ => handlePinchMove s vt (getTouchDistance t1 t2)
       | None => Some vt
       end, true)
  | [t], _ =>
      if isPanning
      then (Some (mkVT (touch_clientX t - x panStart) (touch_clientY t - y panStart) (scale vt)),
            true)
      else (Some vt, false)
  | _, _ => (Some vt, false)
  end.

(** [resetZoom]: the origin at scale 1 without nodes, otherwise the
    centre of the node with the smallest [x + y] (the first one on ties)
    at the centre of the canvas, at scale 1. *)
Definition resetZoom (ns : list NodeData) (width height : Q) : ViewportTransform :=
  match ns with
  | [] => mkVT 0 0 1
  | n0 :: rest =>
      let topLeftNode :=
        fold_left (fun closest node =>
          if Qltb (x (position node) + y (position node))
                  (x (position closest) + y (position closest))
          then node else closest) rest n0 in
      let nodeCenterX := x (position topLeftNode) + NODE_WIDTH / 2 in
      let nodeCenterY := y (position topLeftNode) + NODE_HEIGHT / 2 in
      let canvasCenterX := width / 2 in
      let canvasCenterY := height / 2 in
      mkVT (canvasCenterX - nodeCenterX) (canvasCenterY - nodeCenterY) 1
  end.

(** Every handler that writes [viewportTransform], as an event applied to
    the current transform, with the props and state it reads. *)
Inductive ViewportEvent :=
| EvZoomIn
| EvZoomOut
| EvResetZoom
| EvWheel (isMac : bool) (ev : WheelEvent)
| EvTouchMove (touches : list Touch) (ts : option TouchState) (isPanning : bool)
    (panStart : Position)
| EvMouseMove (isPanning : bool) (panStart : Position) (clientX clientY : Q).

(** One event; [None] when it sets the [NaN] transform. *)
Definition viewport_step (getTouchDistance : Touch -> Touch -> Q)
    (ns : list NodeData) (width height : Q) (rect : option Rect)
    (vt : ViewportTransform) (e : ViewportEvent) : option ViewportTransform :=
  match e with
  | EvZoomIn => Some (zoomIn vt (getContentCenter ns width height vt))
  | EvZoomOut => Some (zoomOut vt (getContentCenter ns width height vt))
  | EvResetZoom => Some (resetZoom ns width height)
  | EvWheel isMac ev =>
      Some (match handleWheel isMac rect vt ev with Some v => v | None => vt end)
  | EvTouchMove touches ts isPanning panStart =>
      fst (handleTouchMove getTouchDistance touches ts isPanning panStart rect vt)
  | EvMouseMove isPanning panStart cx cy =>
      Some (handleCanvasMouseMove isPanning panStart vt cx cy)
  end.

(** A sequence of events from transform [vt]: [Some] of the final
    transform when no event sets a [NaN] transform, [None] from the first
    one that does (the transform then no longer has rational fields). *)
Fixpoint viewport_run (getTouchDistance : Touch -> Touch -> Q)
    (ns : list NodeData) (width height : Q) (rect : option Rect)
    (vt : ViewportTransform) (evs : list ViewportEvent) : option ViewportTransform :=
  match evs with
  | [] => Some vt
  | e :: evs' =>
      match viewport_step getTouchDistance ns width height rect vt e with
      | Some v => viewport_run getTouchDistance ns width height rect v evs'
      | None => None
      end
  end.

(* ================================================================== *)
(** * Proofs *)

Lemma handle_eqb_eq a b : handle_eqb a b = true <-> a = b.
Proof. destruct a, b; simpl; split; congruence. Qed.

Lemma opt_string_eqb_refl o : opt_string_eqb o o = true.
Proof. destruct o; simpl; [apply String.eqb_refl | reflexivity]. Qed.

Lemma same_connection_refl e : same_connection e e = true.
Proof.
  unfold same_connection. rewrite !String.eqb_refl, !opt_string_eqb_refl.
  reflexivity.
Qed.

(** A new wire only ever comes from [add_wire_if_absent], and it is the
    wire that function was given. *)
Lemma add_wire_if_absent_new nw prev e :
  In e (wires (add_wire_if_absent nw prev)) -> ~ In e (wires prev) -> e = nw.
Proof.
  unfold add_wire_if_absent.
  destruct (existsb _ _); simpl; intros Hin Hout; [contradiction|].
  apply in_app_or in Hin as [Hin|[Hin|[]]]; [contradiction|auto].
Qed.

(** Shape of an accepted gesture. *)
Lemma handleEndConnection_accept cs s t i wid nodeId ty idx prev :
  isConnecting cs = true -> conn_sourceNodeId cs = Some s ->
  sourceType cs = Some t -> sourceIndex cs = Some i ->
  s <> "" -> s <> nodeId -> t <> ty ->
  handleEndConnection cs wid nodeId ty idx prev =
    (idle_connection, add_wire_if_absent (new_wire cs s wid nodeId idx) prev).
Proof.
  intros Hc Hs Ht Hi Hne Hsn Hty. unfold handleEndConnection.
  rewrite Hc, Hs, Ht. simpl.
  destruct (String.eqb s "") eqn:E; [apply String.eqb_eq in E; contradiction|].
  destruct (String.eqb s nodeId) eqn:E2; [apply String.eqb_eq in E2; contradiction|].
  destruct (handle_eqb t ty) eqn:E3; [apply handle_eqb_eq in E3; contradiction|].
  reflexivity.
Qed.

Lemma count_same_app nw ws e :
  count_same nw (ws ++ [e]) =
  (count_same nw ws + (if same_connection e nw then 1 else 0))%nat.
Proof.
  unfold count_same. rewrite filter_app, length_app. simpl.
  destruct (same_connection e nw); reflexivity.
Qed.

Lemma existsb_count_same nw ws :
  existsb (fun w => same_connection w nw) ws = false <-> count_same nw ws = 0%nat.
Proof.
  unfold count_same. induction ws as [|e ws IH]; simpl; [tauto|].
  destruct (same_connection e nw); simpl; [split; discriminate|exact IH].
Qed.

(** [same_connection] only looks at the four connection fields. *)
Lemma same_connection_new_wire cs s wid wid' nodeId idx e :
  same_connection e (new_wire cs s wid nodeId idx) =
  same_connection e (new_wire cs s wid' nodeId idx).
Proof. reflexivity. Qed.

(** ** C1 *)

(** C1: a connection drag that has moved and is released over the empty
    canvas (the canvas [div] or its [svg]; no pan is active, since the drag
    began on a handle; the canvas is mounted and the host passed
    [onRequestNodeCreation]) calls [onRequestNodeCreation] exactly once,
    with the draft's source node, handle type and index and the drop point
    [(clientX - rect.left - translateX) / scale] (same for y); the draft
    stays active with the same source, and its temporary wire stays
    rendered. *)
Theorem canvas_drop_requests_node_creation target rect vt cs selected cx cy :
  is_background target = true ->
  isConnecting cs = true -> hasMouseMoved cs = true ->
  let '(_, cs', reqs) :=
    handleCanvasClick false target (Some rect) vt true cs selected cx cy in
  reqs = [mkRequest (conn_sourceNodeId cs) (sourceType cs) (sourceIndex cs)
            (mkPos ((cx - rect_left rect - tx vt) / scale vt)
                   ((cy - rect_top rect - ty vt) / scale vt))] /\
  isConnecting cs' = true /\ hasMouseMoved cs' = true /\
  conn_sourceNodeId cs' = conn_sourceNodeId cs /\
  sourceType cs' = sourceType cs /\ sourceIndex cs' = sourceIndex cs /\
  (forall w, temp_wire_visible w cs = true -> temp_wire_visible w cs' = true).
Proof.
  intros Hbg Hc Hm. unfold handleCanvasClick. rewrite Hbg, Hc, Hm. simpl.
  repeat split; auto.
  intros w. unfold temp_wire_visible. simpl. rewrite Hc, Hm.
  destruct (currentPosition cs), (conn_sourceNodeId cs), (sourceIndex cs);
    simpl; congruence.
Qed.

Lemma canvas_drop_requests_node_creation_witness :
  let cs := handleMouseMove false (handleStartConnection "a" HOutput 0 (mkPos 260 140)) 300 200 in
  is_background (mkTarget false "svg") = true /\
  isConnecting cs = true /\ hasMouseMoved cs = true /\
  let '(_, cs', reqs) :=
    handleCanvasClick false (mkTarget false "svg") (Some (mkRect 10 20))
      (mkVT 50 (-30) 2) true cs [] 410 170 in
  reqs = [mkRequest (conn_sourceNodeId cs) (sourceType cs) (sourceIndex cs)
            (mkPos ((410 - 10 - 50) / 2) ((170 - 20 - (-30)) / 2))] /\
  isConnecting cs' = true /\ hasMouseMoved cs' = true /\
  conn_sourceNodeId cs' = conn_sourceNodeId cs /\
  sourceType cs' = sourceType cs /\ sourceIndex cs' = sourceIndex cs /\
  (forall w, temp_wire_visible w cs = true -> temp_wire_visible w cs' = true).
Proof.
  intros cs. split; [reflexivity|]. split; [reflexivity|]. split; [reflexivity|].
  exact (canvas_drop_requests_node_creation (mkTarget false "svg") (mkRect 10 20)
           (mkVT 50 (-30) 2) cs [] 410 170 eq_refl eq_refl eq_refl).
Defined.

(** ** C2 *)

(** C2: whichever handle the gesture started on, a wire added by
    [handleEndConnection] goes from the node whose output handle takes part
    to the node whose input handle takes part, with [sourceOutput] and
    [targetInput] the decimal strings of the two handle indices. *)
Theorem end_connection_orients_output_to_input cs s t i wid nodeId ty idx prev e :
  isConnecting cs = true -> conn_sourceNodeId cs = Some s ->
  sourceType cs = Some t -> sourceIndex cs = Some i ->
  In e (wires (snd (handleEndConnection cs wid nodeId ty idx prev))) ->
  ~ In e (wires prev) ->
  (t = HOutput /\ ty = HInput /\ sourceNodeId e = s /\ targetNodeId e = nodeId /\
   sourceOutput e = Some (number_toString i) /\
   targetInput e = Some (number_toString idx)) \/
  (t = HInput /\ ty = HOutput /\ sourceNodeId e = nodeId /\ targetNodeId e = s /\
   sourceOutput e = Some (number_toString idx) /\
   targetInput e = Some (number_toString i)).
Proof.
  intros Hc Hs Ht Hi Hin Hout. unfold handleEndConnection in Hin.
  rewrite Hc, Hs, Ht in Hin. simpl in Hin.
  destruct (negb (String.eqb s "")); simpl in Hin; [|contradiction].
  destruct (String.eqb s nodeId || handle_eqb t ty) eqn:E; simpl in Hin;
    [contradiction|].
  apply add_wire_if_absent_new in Hin; [|exact Hout]. subst e.
  apply orb_false_iff in E as [_ E].
  unfold new_wire; rewrite Ht, Hi.
  destruct t, ty; simpl in E; try discriminate; simpl; [right|left];
    repeat split; reflexivity.
Qed.

Lemma end_connection_orients_output_to_input_witness :
  let cs := handleStartConnection "b" HInput 1 (mkPos 300 120) in
  let r := handleEndConnection cs "w1" "a" HOutput 2 (mkWorkflow [] []) in
  isConnecting cs = true /\ conn_sourceNodeId cs = Some "b" /\
  sourceType cs = Some HInput /\ sourceIndex cs = Some 1%nat /\
  In (mkWire "w1" "a" "b" (Some "2") (Some "1")) (wires (snd r)) /\
  ~ In (mkWire "w1" "a" "b" (Some "2") (Some "1")) (wires (mkWorkflow [] [])) /\
  ((HInput = HOutput /\ HOutput = HInput /\ sourceNodeId (mkWire "w1" "a" "b" (Some "2") (Some "1")) = "b" /\
    targetNodeId (mkWire "w1" "a" "b" (Some "2") (Some "1")) = "a" /\
    sourceOutput (mkWire "w1" "a" "b" (Some "2") (Some "1")) = Some (number_toString 1) /\
    targetInput (mkWire "w1" "a" "b" (Some "2") (Some "1")) = Some (number_toString 2)) \/
   (HInput = HInput /\ HOutput = HOutput /\ sourceNodeId (mkWire "w1" "a" "b" (Some "2") (Some "1")) = "a" /\
    targetNodeId (mkWire "w1" "a" "b" (Some "2") (Some "1")) = "b" /\
    sourceOutput (mkWire "w1" "a" "b" (Some "2") (Some "1")) = Some (number_toString 2) /\
    targetInput (mkWire "w1" "a" "b" (Some "2") (Some "1")) = Some (number_toString 1))).
Proof.
  intros cs r.
  assert (Hin : In (mkWire "w1" "a" "b" (Some "2") (Some "1")) (wires (snd r)))
    by (left; reflexivity).
  assert (Hout : ~ In (mkWire "w1" "a" "b" (Some "2") (Some "1")) (wires (mkWorkflow [] [])))
    by (simpl; tauto).
  split; [reflexivity|]. split; [reflexivity|]. split; [reflexivity|].
  split; [reflexivity|]. split; [exact Hin|]. split; [exact Hout|].
  exact (end_connection_orients_output_to_input cs "b" HInput 1 "w1" "a" HOutput 2
           (mkWorkflow [] []) _ eq_refl eq_refl eq_refl eq_refl Hin Hout).
Defined.

(** ** C3 *)

Lemma new_wire_same_key cs cs' s wid wid' nodeId idx e :
  sourceType cs = sourceType cs' -> sourceIndex cs = sourceIndex cs' ->
  same_connection e (new_wire cs s wid nodeId idx) =
  same_connection e (new_wire cs' s wid' nodeId idx).
Proof. intros H1 H2. unfold new_wire. rewrite H1, H2. reflexivity. Qed.

Lemma count_same_ext nw nw' ws :
  (forall e, same_connection e nw = same_connection e nw') ->
  count_same nw ws = count_same nw' ws.
Proof. intros H. unfold count_same. rewrite (filter_ext _ _ H). reflexivity. Qed.

(** A gesture that is accepted leaves exactly one wire with its endpoints
    and handles when there was at most one before. *)
Lemma add_wire_if_absent_count nw prev :
  (count_same nw (wires prev) <= 1)%nat ->
  count_same nw (wires (add_wire_if_absent nw prev)) = 1%nat.
Proof.
  destruct prev as [ws_nodes ws]. simpl.
  intros Hle. unfold add_wire_if_absent. simpl.
  destruct (existsb (fun w => same_connection w nw) ws) eqn:E; simpl.
  - assert (count_same nw ws <> 0%nat).
    { intros H0. apply existsb_count_same in H0. congruence. }
    lia.
  - apply existsb_count_same in E. rewrite count_same_app, E, same_connection_refl.
    reflexivity.
Qed.

(** C3: when the gesture is accepted (active draft, different node,
    opposite handle type), an existing wire with the same source node,
    target node, [sourceOutput] and [targetInput] leaves the workflow as it
    was, otherwise exactly that one wire is appended, and the connection
    state is idle in both cases; so issuing the same connection twice, from
    a workflow with at most one such wire, leaves exactly one. *)
Theorem end_connection_deduplicates cs s t i wid nodeId ty idx prev :
  isConnecting cs = true -> conn_sourceNodeId cs = Some s ->
  sourceType cs = Some t -> sourceIndex cs = Some i ->
  s <> "" -> s <> nodeId -> t <> ty ->
  let nw := new_wire cs s wid nodeId idx in
  (existsb (fun w => same_connection w nw) (wires prev) = true ->
   handleEndConnection cs wid nodeId ty idx prev = (idle_connection, prev)) /\
  (existsb (fun w => same_connection w nw) (wires prev) = false ->
   handleEndConnection cs wid nodeId ty idx prev =
     (idle_connection, mkWorkflow (nodes prev) (wires prev ++ [nw]))) /\
  (forall start wid1 wid2, (count_same nw (wires prev) <= 1)%nat ->
   count_same nw (wires (connect_gesture s t i start wid2 nodeId ty idx
                          (connect_gesture s t i start wid1 nodeId ty idx prev)))
   = 1%nat).
Proof.
  intros Hc Hs Ht Hi Hne Hsn Hty nw.
  rewrite (handleEndConnection_accept cs s t i wid nodeId ty idx prev Hc Hs Ht Hi Hne Hsn Hty).
  split; [|split].
  - intros E. unfold add_wire_if_absent. fold nw. rewrite E. reflexivity.
  - intros E. unfold add_wire_if_absent. fold nw. rewrite E. reflexivity.
  - intros start wid1 wid2 Hle.
    set (cs0 := handleStartConnection s t i start).
    assert (Key : forall w, forall e, same_connection e (new_wire cs0 s w nodeId idx) =
                                  same_connection e nw).
    { intros w e. apply new_wire_same_key; simpl; congruence. }
    unfold connect_gesture. fold cs0.
    rewrite (handleEndConnection_accept cs0 s t i wid1 nodeId ty idx prev
               eq_refl eq_refl eq_refl eq_refl Hne Hsn Hty). simpl.
    set (w1 := add_wire_if_absent (new_wire cs0 s wid1 nodeId idx) prev).
    assert (H1 : count_same (new_wire cs0 s wid1 nodeId idx) (wires w1) = 1%nat).
    { apply add_wire_if_absent_count.
      rewrite (count_same_ext _ nw); [exact Hle|apply Key]. }
    rewrite (handleEndConnection_accept cs0 s t i wid2 nodeId ty idx w1
               eq_refl eq_refl eq_refl eq_refl Hne Hsn Hty). simpl.
    rewrite (count_same_ext nw (new_wire cs0 s wid2 nodeId idx))
      by (intros e; symmetry; apply Key).
    apply add_wire_if_absent_count.
    rewrite (count_same_ext _ (new_wire cs0 s wid1 nodeId idx))
      by (intros e; rewrite !Key; reflexivity).
    rewrite H1. lia.
Qed.

Lemma end_connection_deduplicates_witness :
  let cs := handleStartConnection "a" HOutput 0 (mkPos 260 140) in
  let nw := new_wire cs "a" "w1" "b" 0 in
  isConnecting cs = true /\ conn_sourceNodeId cs = Some "a" /\
  sourceType cs = Some HOutput /\ sourceIndex cs = Some 0%nat /\
  "a" <> "" /\ "a" <> "b" /\ HOutput <> HInput /\
  (existsb (fun w => same_connection w nw) (wires (mkWorkflow [] [])) = true ->
   handleEndConnection cs "w1" "b" HInput 0 (mkWorkflow [] []) = (idle_connection, mkWorkflow [] [])) /\
  (existsb (fun w => same_connection w nw) (wires (mkWorkflow [] [])) = false ->
   handleEndConnection cs "w1" "b" HInput 0 (mkWorkflow [] []) =
     (idle_connection, mkWorkflow [] ([] ++ [nw]))) /\
  (forall start wid1 wid2, (count_same nw [] <= 1)%nat ->
   count_same nw (wires (connect_gesture "a" HOutput 0 start wid2 "b" HInput 0
                          (connect_gesture "a" HOutput 0 start wid1 "b" HInput 0 (mkWorkflow [] []))))
   = 1%nat).
Proof.
  intros cs nw.
  assert (Ha : "a" <> "") by discriminate.
  assert (Hab : "a" <> "b") by discriminate.
  assert (Ht : HOutput <> HInput) by discriminate.
  do 7 (split; [first [reflexivity | assumption]|]).
  exact (end_connection_deduplicates cs "a" HOutput 0 "w1" "b" HInput 0
           (mkWorkflow [] []) eq_refl eq_refl eq_refl eq_refl Ha Hab Ht).
Defined.

(** ** C9 *)

(** C9 (counterexample): a draft started on output 0 of node "a", moved
    while the sidebar is open (so [hasMouseMoved] stays false), and released
    over input 0 of node "b" adds the wire a -> b. *)
Lemma unmoved_draft_release_adds_wire :
  let cs := handleMouseMove true
              (handleStartConnection "a" HOutput 0 (mkPos 260 140)) 400 140 in
  hasMouseMoved cs = false /\
  wires (snd (handleEndConnection cs "w1" "b" HInput 0 (mkWorkflow [] []))) =
    [mkWire "w1" "a" "b" (Some "0") (Some "0")].
Proof. split; reflexivity. Qed.

(** C9 (amended): releasing a draft whose [hasMouseMoved] is false is not
    treated specially.  Over a handle, [handleEndConnection] gives the same
    result as for the same draft after a move: on the source node or on a
    handle of the source's type the gesture ends without a wire, on an
    opposite-type handle of another node the wire is added unless an equal
    one exists.  Over the canvas, no request is made and the draft is left
    as it was (still active, no wire). *)
Theorem unmoved_draft_release cs s wid nodeId ty idx prev
    isPanning target rect vt hasCallback selected cx cy :
  hasMouseMoved cs = false ->
  snd (handleEndConnection cs wid nodeId ty idx prev) =
    snd (handleEndConnection (set_moved cs true) wid nodeId ty idx prev) /\
  (isConnecting cs = true -> conn_sourceNodeId cs = Some s -> s <> "" ->
   (s = nodeId \/ sourceType cs = Some ty) ->
   handleEndConnection cs wid nodeId ty idx prev = (idle_connection, prev)) /\
  (forall t i, isConnecting cs = true -> conn_sourceNodeId cs = Some s ->
   sourceType cs = Some t -> sourceIndex cs = Some i ->
   s <> "" -> s <> nodeId -> t <> ty ->
   handleEndConnection cs wid nodeId ty idx prev =
     (idle_connection, add_wire_if_absent (new_wire cs s wid nodeId idx) prev)) /\
  (let '(_, cs', reqs) :=
     handleCanvasClick isPanning target rect vt hasCallback cs selected cx cy in
   cs' = cs /\ reqs = []).
Proof.
  intros Hm. split; [|split; [|split]].
  - destruct cs as [c sid st si cp mv]. unfold handleEndConnection, set_moved.
    simpl. destruct (negb c || negb (truthy_string sid)); reflexivity.
  - intros Hc Hs Hne Hor. unfold handleEndConnection. rewrite Hc, Hs. simpl.
    destruct (String.eqb s "") eqn:E; [apply String.eqb_eq in E; contradiction|].
    simpl. destruct Hor as [<-|Ht].
    + rewrite String.eqb_refl. reflexivity.
    + rewrite Ht. destruct ty; simpl; rewrite orb_true_r; reflexivity.
  - intros t i. apply handleEndConnection_accept.
  - unfold handleCanvasClick. rewrite Hm, andb_false_r. simpl.
    destruct isPanning, (is_background target); simpl; auto.
Qed.

Lemma unmoved_draft_release_witness :
  let cs := handleStartConnection "a" HOutput 0 (mkPos 260 140) in
  hasMouseMoved cs = false /\
  snd (handleEndConnection cs "w1" "b" HInput 0 (mkWorkflow [] [])) =
    snd (handleEndConnection (set_moved cs true) "w1" "b" HInput 0 (mkWorkflow [] [])) /\
  (isConnecting cs = true -> conn_sourceNodeId cs = Some "a" -> "a" <> "" ->
   ("a" = "b" \/ sourceType cs = Some HInput) ->
   handleEndConnection cs "w1" "b" HInput 0 (mkWorkflow [] []) = (idle_connection, mkWorkflow [] [])) /\
  (forall t i, isConnecting cs = true -> conn_sourceNodeId cs = Some "a" ->
   sourceType cs = Some t -> sourceIndex cs = Some i ->
   "a" <> "" -> "a" <> "b" -> t <> HInput ->
   handleEndConnection cs "w1" "b" HInput 0 (mkWorkflow [] []) =
     (idle_connection, add_wire_if_absent (new_wire cs "a" "w1" "b" 0) (mkWorkflow [] []))) /\
  (let '(_, cs', reqs) :=
     handleCanvasClick false (mkTarget true "div") (Some (mkRect 0 0)) (mkVT 0 0 1) true
       cs [] 10 10 in
   cs' = cs /\ reqs = []).
Proof.
  intros cs. split; [reflexivity|].
  exact (unmoved_draft_release cs "a" "w1" "b" HInput 0 (mkWorkflow [] [])
           false (mkTarget true "div") (Some (mkRect 0 0)) (mkVT 0 0 1) true [] 10 10
           eq_refl).
Defined.

(** ** C8 *)

Lemma count_type_app t l1 l2 :
  count_type t (l1 ++ l2) = (count_type t l1 + count_type t l2)%nat.
Proof. unfold count_type. rewrite filter_app, length_app. reflexivity. Qed.

(** One loop iteration: the coordinate on each axis becomes the other
    node's when one of that axis' tests matches, and one guide of that
    axis is pushed per matching test. *)
Lemma snap_step_spec d acc o :
  snappedX (snap_step d acc o) =
    (if negb (String.eqb (id o) (id d)) && existsb (fun b => b) (vtests d o)
     then x (position o) else snappedX acc) /\
  snappedY (snap_step d acc o) =
    (if negb (String.eqb (id o) (id d)) && existsb (fun b => b) (htests d o)
     then y (position o) else snappedY acc) /\
  count_type Vertical (guides (snap_step d acc o)) =
    (count_type Vertical (guides acc) + matches d o (vtests d o))%nat /\
  count_type Horizontal (guides (snap_step d acc o)) =
    (count_type Horizontal (guides acc) + matches d o (htests d o))%nat.
Proof.
  unfold snap_step, matches, vtests, htests.
  destruct (String.eqb (id o) (id d)); simpl; [repeat split; lia|].
  destruct acc as [sx sy gs]; simpl.
  repeat match goal with
         | |- context [Qltb ?a ?b] => destruct (Qltb a b)
         end; simpl; rewrite ?count_type_app; unfold count_type; simpl;
    repeat split; lia.
Qed.

Lemma last_match_snoc tests d l o :
  last_match tests d (l ++ [o]) =
  if negb (String.eqb (id o) (id d)) && existsb (fun b => b) (tests d o)
  then Some o else last_match tests d l.
Proof. unfold last_match. rewrite rev_app_distr. reflexivity. Qed.

Lemma fold_snap_spec d others acc0 :
  let acc := fold_left (snap_step d) others acc0 in
  snappedX acc = match last_match vtests d others with
                 | Some o => x (position o) | None => snappedX acc0 end /\
  snappedY acc = match last_match htests d others with
                 | Some o => y (position o) | None => snappedY acc0 end /\
  count_type Vertical (guides acc) =
    (count_type Vertical (guides acc0) +
     list_sum (map (fun o => matches d o (vtests d o)) others))%nat /\
  count_type Horizontal (guides acc) =
    (count_type Horizontal (guides acc0) +
     list_sum (map (fun o => matches d o (htests d o)) others))%nat.
Proof.
  induction others as [|o l IH] using rev_ind; cbn zeta.
  - cbn [fold_left last_match rev find map list_sum fold_right].
    repeat split; lia.
  - rewrite fold_left_app. cbn [fold_left].
    destruct IH as (IHx & IHy & IHv & IHh).
    destruct (snap_step_spec d (fold_left (snap_step d) l acc0) o)
      as (Sx & Sy & Sv & Sh).
    rewrite Sx, Sy, Sv, Sh, IHv, IHh, !last_match_snoc, !map_app, !list_sum_app.
    cbn [map list_sum fold_right]. repeat split.
    + destruct (negb (String.eqb (id o) (id d)) && existsb (fun b => b) (vtests d o));
        [reflexivity|exact IHx].
    + destruct (negb (String.eqb (id o) (id d)) && existsb (fun b => b) (htests d o));
        [reflexivity|exact IHy].
    + lia.
    + lia.
Qed.

(** C8: over any list of other nodes, [calculateSnapping] pushes one guide
    per matching test on each axis, and the snapped coordinate of an axis is
    the coordinate of the last node, in the order of the list, with a
    matching test on that axis (the dragged node's own coordinate when none
    matches), whatever the distances of the matches. *)
Theorem snapping_last_match_wins d others :
  let '(p, gs) := calculateSnapping d others in
  x p = match last_match vtests d others with
        | Some o => x (position o) | None => x (position d) end /\
  y p = match last_match htests d others with
        | Some o => y (position o) | None => y (position d) end /\
  count_type Vertical gs = list_sum (map (fun o => matches d o (vtests d o)) others) /\
  count_type Horizontal gs = list_sum (map (fun o => matches d o (htests d o)) others).
Proof.
  unfold calculateSnapping. simpl.
  destruct (fold_snap_spec d others (mkAcc (x (position d)) (y (position d)) []))
    as (Hx & Hy & Hv & Hh).
  simpl in *. repeat split; assumption.
Qed.

(** With two matches on the x axis, the later one wins even though the
    earlier one is nearer. *)
Example snapping_later_match_beats_nearer :
  x (fst (calculateSnapping (mkNode "D" "t" (mkPos 105 0) JNull)
            [mkNode "N" "t" (mkPos 104 300) JNull;
             mkNode "F" "t" (mkPos 99 600) JNull])) = 99.
Proof. vm_compute. reflexivity. Qed.

(** ** C7 *)

(** C7: with A at (100,100) and B dragged to (102,300), both 160x80, the
    left edges are 2 apart, so [calculateSnapping] gives B the x coordinate
    100 and, among its guides, a vertical guide at 100 from 95 to 385
    naming B and A. *)
Theorem snapping_left_edge_example :
  let A := mkNode "A" "action" (mkPos 100 100) JNull in
  let B := mkNode "B" "action" (mkPos 102 300) JNull in
  let '(p, gs) := calculateSnapping B [A] in
  x p = 100 /\
  In (mkGuide Vertical 100 ["B"; "A"] 95 385) gs.
Proof. vm_compute. split; [reflexivity|]. right. left. reflexivity. Qed.

(** ** C4 *)

Lemma removeNode_is_handleNodeDelete w n :
  removeNodeFromWorkflow w n = handleNodeDelete n w.
Proof. reflexivity. Qed.

(** C4: deleting node [n] (with [removeNodeFromWorkflow], or the
    [handleNodeDelete] updater, which computes the same workflow in one
    step) keeps exactly the nodes whose id is not [n] and exactly the wires
    whose source and target are not [n]; so a workflow whose wires all
    reference existing nodes keeps that property. *)
Theorem delete_node_cascades w n :
  let r := removeNodeFromWorkflow w n in
  r = handleNodeDelete n w /\
  (forall nd, In nd (nodes r) <-> In nd (nodes w) /\ id nd <> n) /\
  (forall e, In e (wires r) <->
             In e (wires w) /\ sourceNodeId e <> n /\ targetNodeId e <> n) /\
  (wires_reference_nodes w -> wires_reference_nodes r).
Proof.
  intros r.
  assert (Hn : forall nd, In nd (nodes r) <-> In nd (nodes w) /\ id nd <> n).
  { intros nd. unfold r, removeNodeFromWorkflow. simpl. rewrite filter_In.
    rewrite negb_true_iff, String.eqb_neq. tauto. }
  assert (He : forall e, In e (wires r) <->
               In e (wires w) /\ sourceNodeId e <> n /\ targetNodeId e <> n).
  { intros e. unfold r, removeNodeFromWorkflow. simpl. rewrite filter_In.
    rewrite andb_true_iff, !negb_true_iff, !String.eqb_neq. tauto. }
  split; [reflexivity|]. split; [exact Hn|]. split; [exact He|].
  intros Hw e Hin. apply He in Hin as (Hin & Hs & Ht).
  destruct (Hw e Hin) as [(a & Ha & Ea) (b & Hb & Eb)].
  split.
  - exists a. split; [apply Hn; split; congruence|exact Ea].
  - exists b. split; [apply Hn; split; congruence|exact Eb].
Qed.

(** The example of the specification: nodes A, B, C and wires A->B, B->C;
    deleting B leaves nodes A and C and no wire. *)
Example delete_node_example :
  let A := mkNode "A" "t" (mkPos 0 0) JNull in
  let B := mkNode "B" "t" (mkPos 200 0) JNull in
  let C := mkNode "C" "t" (mkPos 400 0) JNull in
  removeNodeFromWorkflow
    (mkWorkflow [A; B; C] [mkWire "w1" "A" "B" (Some "0") (Some "0");
                           mkWire "w2" "B" "C" (Some "0") (Some "0")]) "B"
  = mkWorkflow [A; C] [].
Proof. reflexivity. Qed.

(** ** C10 *)

Lemma unique_id_node l a b :
  NoDup (map id l) -> In a l -> In b l -> id a = id b -> a = b.
Proof.
  induction l as [|c l IH]; simpl; [tauto|].
  intros Hnd Ha Hb E. inversion Hnd as [|? ? Hnot Hnd']; subst.
  destruct Ha as [<-|Ha], Hb as [<-|Hb]; auto.
  - exfalso. apply Hnot. rewrite E. apply in_map. exact Hb.
  - exfalso. apply Hnot. rewrite <- E. apply in_map. exact Ha.
Qed.

(** Replacing, in a list of nodes with distinct ids, the node with the id
    of [n0] by [n0] moved to [q]: every other node is kept as it is, and
    the ids are unchanged. *)
Lemma replace_position_frame l n0 q :
  NoDup (map id l) -> In n0 l ->
  let l' := map (fun n => if String.eqb (id n) (id n0) then with_position n0 q else n) l in
  map id l' = map id l /\
  Forall2 (fun a b => (id a <> id n0 -> b = a) /\
                      (id a = id n0 -> b = with_position a q)) l l'.
Proof.
  intros Hnd Hin l'. unfold l'. split.
  - rewrite map_map. apply map_ext_in. intros a _.
    destruct (String.eqb (id a) (id n0)) eqn:E; [apply String.eqb_eq in E|]; auto.
  - assert (Hall : forall a, In a l -> (id a <> id n0 ->
              (if String.eqb (id a) (id n0) then with_position n0 q else a) = a) /\
              (id a = id n0 ->
              (if String.eqb (id a) (id n0) then with_position n0 q else a) =
                with_position a q)).
    { intros a Ha. split; intros E.
      - apply String.eqb_neq in E. rewrite E. reflexivity.
      - rewrite E, String.eqb_refl. f_equal.
        symmetry. apply (unique_id_node l); assumption. }
    clear Hin Hnd. induction l as [|a l IH]; simpl; constructor.
    + apply Hall. left. reflexivity.
    + apply IH. intros b Hb. apply Hall. right. exact Hb.
Qed.

(** C10: when the Node component reports a drag of node [n0] of the
    workflow to [p] (with or without the dragging flag), [handleNodeChange]
    keeps the wires and the node ids, keeps every other node as it is, and
    changes only the position of [n0] (to [p], or to its snapped value
    while dragging); [updateNodeInWorkflow] with a position-only update
    behaves the same way.  Node ids are unique. *)
Theorem node_change_frame w n0 p (isDragging : bool) :
  NoDup (map id (nodes w)) -> In n0 (nodes w) ->
  let u := node_drag_update n0 p in
  let q := if isDragging
           then fst (calculateSnapping u
                       (filter (fun n => negb (String.eqb (id n) (id u))) (nodes w)))
           else p in
  let r := handleNodeChange u isDragging w in
  wires r = wires w /\
  map id (nodes r) = map id (nodes w) /\
  Forall2 (fun a b => (id a <> id n0 -> b = a) /\
                      (id a = id n0 -> b = with_position a q)) (nodes w) (nodes r) /\
  let r' := updateNodeInWorkflow w (id n0) (mkUpdate None None (Some p) None) in
  wires r' = wires w /\
  map id (nodes r') = map id (nodes w) /\
  Forall2 (fun a b => (id a <> id n0 -> b = a) /\
                      (id a = id n0 -> b = with_position a p)) (nodes w) (nodes r').
Proof.
  intros Hnd Hin u q r.
  destruct (replace_position_frame (nodes w) n0 q Hnd Hin) as [Hid Hfr].
  destruct (replace_position_frame (nodes w) n0 p Hnd Hin) as [Hid' Hfr'].
  assert (Hr : nodes r = map (fun n => if String.eqb (id n) (id n0)
                                       then with_position n0 q else n) (nodes w)).
  { unfold r, handleNodeChange, q, u, node_drag_update. simpl.
    destruct isDragging; reflexivity. }
  assert (Hr' : nodes (updateNodeInWorkflow w (id n0) (mkUpdate None None (Some p) None))
                = map (fun n => if String.eqb (id n) (id n0)
                                then with_position n0 p else n) (nodes w)).
  { unfold updateNodeInWorkflow. simpl. apply map_ext_in. intros a Ha.
    destruct (String.eqb (id a) (id n0)) eqn:E; [|reflexivity].
    apply String.eqb_eq in E.
    rewrite (unique_id_node (nodes w) a n0 Hnd Ha Hin E). reflexivity. }
  split; [reflexivity|]. rewrite Hr. split; [exact Hid|]. split; [exact Hfr|].
  cbv zeta. split; [reflexivity|]. rewrite Hr'. split; [exact Hid'|exact Hfr'].
Qed.

Lemma node_change_frame_witness :
  let A := mkNode "A" "t" (mkPos 100 100) JNull in
  let B := mkNode "B" "t" (mkPos 400 300) JNull in
  let w := mkWorkflow [A; B] [mkWire "w1" "A" "B" (Some "0") (Some "0")] in
  NoDup (map id (nodes w)) /\ In B (nodes w) /\
  let u := node_drag_update B (mkPos 102 300) in
  let q := fst (calculateSnapping u
                  (filter (fun n => negb (String.eqb (id n) (id u))) (nodes w))) in
  let r := handleNodeChange u true w in
  wires r = wires w /\
  map id (nodes r) = map id (nodes w) /\
  Forall2 (fun a b => (id a <> id B -> b = a) /\
                      (id a = id B -> b = with_position a q)) (nodes w) (nodes r) /\
  let r' := updateNodeInWorkflow w (id B) (mkUpdate None None (Some (mkPos 102 300)) None) in
  wires r' = wires w /\
  map id (nodes r') = map id (nodes w) /\
  Forall2 (fun a b => (id a <> id B -> b = a) /\
                      (id a = id B -> b = with_position a (mkPos 102 300))) (nodes w) (nodes r').
Proof.
  intros A B w.
  assert (Hnd : NoDup (map id (nodes w))).
  { simpl. constructor; [simpl; intros [H|[]]; discriminate|].
    constructor; [simpl; tauto|constructor]. }
  assert (Hin : In B (nodes w)) by (right; left; reflexivity).
  split; [exact Hnd|]. split; [exact Hin|].
  exact (node_change_frame w B (mkPos 102 300) true Hnd Hin).
Defined.

(** ** C6 *)

Lemma Qltb_iff a b : Qltb a b = true <-> a < b.
Proof.
  unfold Qltb. rewrite negb_true_iff. split.
  - intros H. apply Qnot_le_lt. intros H'. apply Qle_bool_iff in H'. congruence.
  - intros H. destruct (Qle_bool b a) eqn:E; [|reflexivity].
    apply Qle_bool_iff in E. exfalso. apply (Qlt_not_le a b); assumption.
Qed.

(** Every zoom handler ends in [if (newScale !== scale) set(...)], after
    which the scale is [newScale] (up to [==]). *)
Lemma scale_after_update vt ax ay ns :
  scale (if negb (Qeq_bool ns (scale vt)) then zoom_about vt ax ay ns else vt) == ns.
Proof.
  destruct (Qeq_bool ns (scale vt)) eqn:E; simpl.
  - apply Qeq_bool_iff in E. symmetry. exact E.
  - reflexivity.
Qed.


Lemma clamp_bounds z : 0.1 <= Qmax 0.1 (Qmin 3 z) /\ Qmax 0.1 (Qmin 3 z) <= 3.
Proof.
  split.
  - apply Q.le_max_l.
  - apply Q.max_lub; [discriminate|apply Q.le_min_l].
Qed.

Lemma js_clamp_bounds v q :
  js_max 0.1 (js_min 3 v) = JsFin q -> 0.1 <= q <= 3.
Proof.
  destruct v as [r|[|]|]; cbn [js_min js_max]; intros E; injection E as <- || discriminate E.
  - apply clamp_bounds.
  - split; [apply Q.le_max_l|apply Q.max_lub; [discriminate|apply Qle_refl]].
  - split; [apply Qle_refl|discriminate].
Qed.

(** Every transform a pinch sets is the zoom about the initial centre to
    a scale in [[0.1, 3]]; with a nonzero initial distance the scale is
    [max(0.1, min(3, initialScale * distance / initialDistance))]. *)
Lemma pinch_result ts vt d :
  (forall vt', handlePinchMove ts vt d = Some vt' ->
     (0.1 <= scale vt' <= 3) /\
     vt' = zoom_about vt (x (initialCenter ts)) (y (initialCenter ts)) (scale vt')) /\
  (~ initialDistance ts == 0 ->
     handlePinchMove ts vt d =
     Some (zoom_about vt (x (initialCenter ts)) (y (initialCenter ts))
             (Qmax 0.1 (Qmin 3 (initialScale ts * (d / initialDistance ts)))))).
Proof.
  unfold handlePinchMove. split.
  - intros vt'.
    destruct (js_max 0.1 (js_min 3 (js_mul (initialScale ts) (js_div d (initialDistance ts)))))
      as [q| |] eqn:E; intros H; try discriminate.
    injection H as <-. split; [exact (js_clamp_bounds _ _ E)|reflexivity].
  - intros Hi. unfold js_div.
    destruct (Qeq_bool (initialDistance ts) 0) eqn:E.
    + apply Qeq_bool_iff in E. contradiction.
    + reflexivity.
Qed.

(** A pinch sets the [NaN] transform only when the fingers started at
    one point and are at one point again, or the recorded scale is 0. *)
Lemma pinch_nan ts vt d :
  handlePinchMove ts vt d = None ->
  initialDistance ts == 0 /\ (d == 0 \/ initialScale ts == 0).
Proof.
  unfold handlePinchMove, js_div.
  destruct (Qeq_bool (initialDistance ts) 0) eqn:Ei; [|discriminate].
  apply Qeq_bool_iff in Ei. intros H. split; [exact Ei|].
  destruct (Qeq_bool d 0) eqn:Ed; [left; apply Qeq_bool_iff; exact Ed|].
  unfold js_mul in H. destruct (Qeq_bool (initialScale ts) 0) eqn:Es.
  - right. apply Qeq_bool_iff. exact Es.
  - destruct (Bool.eqb (Qltb 0 d) (Qltb 0 (initialScale ts))); discriminate.
Qed.



(** ** C5 *)

Lemma normalize_prop (k : string) e :
  (match e with JUndef => [] | _ => [(k, js_normalize e)] end) =
  (if is_undef e then [] else [(k, js_normalize e)]).
Proof. destruct e; reflexivity. Qed.

Lemma is_undef_normalize e : is_undef (js_normalize e) = is_undef e.
Proof. destruct e; reflexivity. Qed.

Lemma js_normalize_idem v : js_normalize (js_normalize v) = js_normalize v.
Proof.
  induction v as [| | | | |xs IH|ps IH] using jsval_ind'; try reflexivity.
  - simpl. rewrite map_map. f_equal. apply map_ext_in.
    intros e He. rewrite Forall_forall in IH. apply IH, He.
  - simpl. f_equal. induction IH as [|[k e] ps He _ IHps]; [reflexivity|].
    simpl in He |- *. rewrite !normalize_prop. destruct (is_undef e) eqn:U.
    + exact IHps.
    + simpl. rewrite normalize_prop, is_undef_normalize, U, He. simpl.
      f_equal. exact IHps.
Qed.

(** [JSON.stringify] writes the normalised value of JSON data. *)
Lemma to_json_safe v :
  json_safe v = true ->
  to_json v = if is_undef v then None else Some (js_normalize v).
Proof.
  induction v as [| | | | |xs IH|ps IH] using jsval_ind'; try reflexivity.
  - simpl. intros Hs. do 2 f_equal. apply map_ext_in. intros e He.
    rewrite forallb_forall in Hs. specialize (Hs e He).
    apply andb_true_iff in Hs as [Hu Hs]. rewrite Forall_forall in IH.
    rewrite (IH e He Hs). apply negb_true_iff in Hu. rewrite Hu. reflexivity.
  - simpl. intros Hs. do 2 f_equal.
    induction IH as [|[k e] ps He _ IHps]; [reflexivity|].
    simpl in Hs, He |- *. apply andb_true_iff in Hs as [He1 Hs].
    rewrite (He He1), normalize_prop, (IHps Hs).
    destruct (is_undef e); reflexivity.
Qed.

Lemma node_to_js_safe n : json_safe (data n) = true -> json_safe (node_to_js n) = true.
Proof. intros H. simpl. rewrite H. reflexivity. Qed.

Lemma forallb_map_comp {A B} (f : B -> bool) (g : A -> B) l :
  forallb f (map g l) = forallb (fun a => f (g a)) l.
Proof. induction l as [|a l IH]; simpl; [reflexivity|]. rewrite IH. reflexivity. Qed.

Lemma workflow_to_js_json w :
  workflow_json_safe w = true ->
  to_json (workflow_to_js w) = Some (js_normalize (workflow_to_js w)).
Proof.
  intros H. rewrite to_json_safe; [reflexivity|].
  unfold workflow_to_js, workflow_json_safe in *.
  cbn [json_safe forallb]. rewrite !forallb_map_comp, andb_true_r.
  apply andb_true_iff. split.
  - rewrite forallb_forall in H |- *. intros n Hn. specialize (H n Hn).
    cbn. rewrite H. reflexivity.
  - apply forallb_forall. intros e _. cbn.
    destruct (sourceOutput e), (targetInput e); reflexivity.
Qed.

(** C5: for a workflow whose node [data] is JSON data (no [undefined]
    array element), [deserializeWorkflow (serializeWorkflow w)] is the same
    document as [w]: equal up to properties holding [undefined] (such as
    the handle fields of a wire built by [createWire] without indices),
    which JSON leaves out and which read as absent. *)
Theorem serialize_deserialize_roundtrip w :
  workflow_json_safe w = true ->
  js_same (deserializeWorkflow (serializeWorkflow w)) (workflow_to_js w).
Proof.
  intros H. unfold serializeWorkflow, JSON_stringify.
  rewrite (workflow_to_js_json w H).
  unfold deserializeWorkflow, js_same. simpl.
  assert (Hm : forall l, map js_normalize (map js_normalize l) = map js_normalize l).
  { intros l. rewrite map_map. apply map_ext, js_normalize_idem. }
  rewrite !Hm. reflexivity.
Qed.

Lemma serialize_deserialize_roundtrip_witness :
  let w := mkWorkflow
             [mkNode "n1" "trigger" (mkPos 100 100)
                (JObj [("title", JStr "Start"); ("inputs", JArr []);
                       ("outputs", JArr [JObj [("name", JStr "output"); ("type", JStr "any")]])])]
             [mkWire "w1" "n1" "n1" None (Some "0")] in
  workflow_json_safe w = true /\
  js_same (deserializeWorkflow (serializeWorkflow w)) (workflow_to_js w).
Proof.
  intros w. split; [reflexivity|].
  exact (serialize_deserialize_roundtrip w eq_refl).
Defined.

(** The round trip is an identity of documents, not of raw objects: a wire
    built by [createWire] without handle indices holds [undefined] in
    [sourceOutput] and [targetInput], and JSON leaves those keys out. *)
Example roundtrip_drops_undefined_keys :
  let w := mkWorkflow [] [mkWire "w1" "a" "b" None None] in
  deserializeWorkflow (serializeWorkflow w) <> workflow_to_js w /\
  js_same (deserializeWorkflow (serializeWorkflow w)) (workflow_to_js w).
Proof. split; [vm_compute; discriminate|reflexivity]. Qed.

(* ================================================================== *)
(** * Further properties of the code *)

(** ** Object spread and [createNode] *)

Lemma props_lookup_cons a b ps k :
  props_lookup ((a, b) :: ps) k = if String.eqb a k then Some b else props_lookup ps k.
Proof. unfold props_lookup. simpl. destruct (String.eqb a k); reflexivity. Qed.

Lemma props_lookup_snoc ps k' v k :
  existsb (fun p => String.eqb (fst p) k') ps = false ->
  props_lookup (ps ++ [(k', v)]) k =
  if String.eqb k' k then Some v else props_lookup ps k.
Proof.
  induction ps as [|[a b] ps IH]; intros H.
  - simpl. rewrite props_lookup_cons. reflexivity.
  - simpl in H. apply orb_false_iff in H as [Ha Hps].
    simpl. rewrite !props_lookup_cons, IH by exact Hps.
    apply String.eqb_neq in Ha.
    destruct (String.eqb a k) eqn:Eak, (String.eqb k' k) eqn:Ek'k; try reflexivity.
    apply String.eqb_eq in Eak, Ek'k. congruence.
Qed.

Lemma props_lookup_replace ps k' v k :
  props_lookup (map (fun p => if String.eqb (fst p) k' then (k', v) else p) ps) k =
  if String.eqb k' k
  then (if existsb (fun p => String.eqb (fst p) k') ps then Some v else None)
  else props_lookup ps k.
Proof.
  induction ps as [|[a b] ps IH].
  - simpl. destruct (String.eqb k' k); reflexivity.
  - simpl. destruct (String.eqb a k') eqn:Eak'.
    + apply String.eqb_eq in Eak'. subst a.
      rewrite !props_lookup_cons, IH. simpl.
      destruct (String.eqb k' k); reflexivity.
    + rewrite !props_lookup_cons, IH. simpl.
      destruct (String.eqb k' k) eqn:Ek'k.
      * apply String.eqb_eq in Ek'k. subst k.
        rewrite Eak'. reflexivity.
      * reflexivity.
Qed.

Lemma props_lookup_js_set ps k' v k :
  props_lookup (js_set ps k' v) k =
  if String.eqb k' k then Some v else props_lookup ps k.
Proof.
  unfold js_set. destruct (existsb (fun p => String.eqb (fst p) k') ps) eqn:E.
  - rewrite props_lookup_replace, E. reflexivity.
  - apply props_lookup_snoc. exact E.
Qed.

Lemma props_lookup_absent ps k :
  ~ In k (map fst ps) -> props_lookup ps k = None.
Proof.
  induction ps as [|[a b] ps IH]; intros H; [reflexivity|].
  rewrite props_lookup_cons. simpl in H.
  destruct (String.eqb a k) eqn:E.
  - apply String.eqb_eq in E. tauto.
  - apply IH. tauto.
Qed.

Lemma props_lookup_spread base ps k :
  NoDup (map fst ps) ->
  props_lookup (spread_into base ps) k =
  match props_lookup ps k with Some v => Some v | None => props_lookup base k end.
Proof.
  revert base. induction ps as [|[a b] ps IH]; intros base Hnd; [reflexivity|].
  simpl in Hnd. inversion Hnd as [|? ? Hnin Hnd']; subst.
  unfold spread_into. simpl. fold (spread_into (js_set base a b) ps).
  rewrite IH by exact Hnd'. rewrite props_lookup_cons, props_lookup_js_set.
  destruct (String.eqb a k) eqn:E.
  - apply String.eqb_eq in E. subst k.
    rewrite props_lookup_absent by exact Hnin. reflexivity.
  - destruct (props_lookup ps k); reflexivity.
Qed.

Lemma get_prop_obj ps k :
  get_prop (JObj ps) k =
  Some (match props_lookup ps k with Some e => e | None => JUndef end).
Proof.
  unfold get_prop, props_lookup.
  destruct (find (fun p => String.eqb (fst p) k) ps) as [[? ?]|]; reflexivity.
Qed.

(** [createNode]: a property of the node's [data] reads as in the given
    [data] object when that object has it; otherwise [title] reads as the
    node type and any other key as [undefined].  Without a [data]
    argument, [data] is [{ title: type }]. *)
Theorem createNode_data_reads nid ty pos d :
  NoDup (map fst d) ->
  (forall k, get_prop (data (createNode nid ty pos (Some d))) k =
     Some (match props_lookup d k with
           | Some v => v
           | None => if String.eqb k "title" then JStr ty else JUndef
           end)) /\
  data (createNode nid ty pos None) = JObj [("title", JStr ty)].
Proof.
  intros Hnd. split; [|reflexivity].
  intros k. unfold createNode. cbn [data].
  rewrite get_prop_obj, props_lookup_spread by exact Hnd.
  destruct (props_lookup d k); [reflexivity|].
  rewrite props_lookup_cons, (String.eqb_sym "title" k).
  destruct (String.eqb k "title"); reflexivity.
Qed.

Lemma createNode_data_reads_witness :
  NoDup (map fst [("x", JNum 1); ("title", JStr "Start")]) /\
  get_prop (data (createNode "n1" "trigger" (mkPos 0 0)
              (Some [("x", JNum 1); ("title", JStr "Start")]))) "title"
  = Some (JStr "Start").
Proof.
  assert (Hnd : NoDup (map fst [("x", JNum 1); ("title", JStr "Start")])).
  { simpl. constructor; [simpl; intros [H|H]; [discriminate|exact H]|].
    constructor; [intros []|constructor]. }
  split; [exact Hnd|].
  exact (proj1 (createNode_data_reads "n1" "trigger" (mkPos 0 0) _ Hnd) "title").
Defined.

(** ** Adding and removing nodes and wires *)

Lemma filter_all_true {A} (f : A -> bool) l :
  (forall a, In a l -> f a = true) -> filter f l = l.
Proof.
  induction l as [|a l IH]; intros H; [reflexivity|].
  simpl. rewrite (H a (or_introl eq_refl)), IH; [reflexivity|].
  intros b Hb. apply H. right. exact Hb.
Qed.

Lemma filter_comm {A} (f g : A -> bool) l :
  filter f (filter g l) = filter g (filter f l).
Proof.
  induction l as [|a l IH]; [reflexivity|]. simpl.
  destruct (g a) eqn:Eg, (f a) eqn:Ef; simpl; rewrite ?Eg, ?Ef, IH; reflexivity.
Qed.

Lemma filter_idem {A} (f : A -> bool) l : filter f (filter f l) = filter f l.
Proof.
  induction l as [|a l IH]; [reflexivity|]. simpl.
  destruct (f a) eqn:E; simpl; rewrite ?E, IH; reflexivity.
Qed.

(** Adding a wire whose id no wire of the workflow has, then removing
    that id, gives back the workflow. *)
Theorem add_then_remove_wire w e :
  (forall e', In e' (wires w) -> wire_id e' <> wire_id e) ->
  removeWireFromWorkflow (addWireToWorkflow w e) (wire_id e) = w.
Proof.
  intros H. destruct w as [ns ws]. unfold removeWireFromWorkflow, addWireToWorkflow.
  simpl in *. rewrite filter_app. simpl. rewrite String.eqb_refl. simpl.
  rewrite app_nil_r, filter_all_true; [reflexivity|].
  intros e' He'. apply negb_true_iff, String.eqb_neq. exact (H e' He').
Qed.

Lemma add_then_remove_wire_witness :
  (forall e', In e' (wires (mkWorkflow [] [mkWire "w1" "A" "B" None None])) ->
     wire_id e' <> wire_id (mkWire "w2" "B" "C" None None)) /\
  removeWireFromWorkflow
    (addWireToWorkflow (mkWorkflow [] [mkWire "w1" "A" "B" None None])
       (mkWire "w2" "B" "C" None None)) "w2"
  = mkWorkflow [] [mkWire "w1" "A" "B" None None].
Proof.
  assert (H : forall e', In e' (wires (mkWorkflow [] [mkWire "w1" "A" "B" None None])) ->
            wire_id e' <> wire_id (mkWire "w2" "B" "C" None None)).
  { simpl. intros e' [<-|[]]. simpl. discriminate. }
  split; [exact H|].
  exact (add_then_remove_wire _ (mkWire "w2" "B" "C" None None) H).
Defined.

(** Adding a node whose id no node has and no wire references, then
    removing that id, gives back the workflow. *)
Theorem add_then_remove_node w n :
  (forall m, In m (nodes w) -> id m <> id n) ->
  (forall e, In e (wires w) -> sourceNodeId e <> id n /\ targetNodeId e <> id n) ->
  removeNodeFromWorkflow (addNodeToWorkflow w n) (id n) = w.
Proof.
  intros Hn He. destruct w as [ns ws].
  unfold removeNodeFromWorkflow, addNodeToWorkflow. simpl in *.
  rewrite filter_app. simpl. rewrite String.eqb_refl. simpl. rewrite app_nil_r.
  rewrite !filter_all_true; [reflexivity| |].
  - intros e H. destruct (He e H) as [Hs Ht].
    apply String.eqb_neq in Hs, Ht. rewrite Hs, Ht. reflexivity.
  - intros m H. apply negb_true_iff, String.eqb_neq. exact (Hn m H).
Qed.

Lemma add_then_remove_node_witness :
  let w := mkWorkflow [mkNode "A" "t" (mkPos 0 0) JNull] [] in
  let n := mkNode "B" "t" (mkPos 200 0) JNull in
  (forall m, In m (nodes w) -> id m <> id n) /\
  (forall e, In e (wires w) -> sourceNodeId e <> id n /\ targetNodeId e <> id n) /\
  removeNodeFromWorkflow (addNodeToWorkflow w n) (id n) = w.
Proof.
  intros w n.
  assert (H1 : forall m, In m (nodes w) -> id m <> id n).
  { simpl. intros m [<-|[]]. simpl. discriminate. }
  assert (H2 : forall e, In e (wires w) -> sourceNodeId e <> id n /\ targetNodeId e <> id n).
  { simpl. intros e []. }
  split; [exact H1|]. split; [exact H2|].
  exact (add_then_remove_node w n H1 H2).
Defined.

(** [removeWireFromWorkflow] (and the [handleWireDelete] updater, which
    computes the same workflow) keeps the nodes and exactly the wires with
    another id; removing the same id again changes nothing, and wires that
    all referenced existing nodes still do. *)
Theorem remove_wire_spec w i :
  let r := removeWireFromWorkflow w i in
  r = handleWireDelete i w /\
  nodes r = nodes w /\
  (forall e, In e (wires r) <-> In e (wires w) /\ wire_id e <> i) /\
  removeWireFromWorkflow r i = r /\
  (wires_reference_nodes w -> wires_reference_nodes r).
Proof.
  intros r.
  assert (He : forall e, In e (wires r) <-> In e (wires w) /\ wire_id e <> i).
  { intros e. unfold r, removeWireFromWorkflow. simpl.
    rewrite filter_In, negb_true_iff, String.eqb_neq. tauto. }
  split; [reflexivity|]. split; [reflexivity|]. split; [exact He|]. split.
  - unfold r, removeWireFromWorkflow. simpl. rewrite filter_idem. reflexivity.
  - intros Hw e Hin. apply He in Hin as [Hin _]. exact (Hw e Hin).
Qed.

(** Deleting two nodes one after the other gives the same workflow in
    either order, and deleting a node twice is deleting it once. *)
Theorem remove_node_commutes w a b :
  removeNodeFromWorkflow (removeNodeFromWorkflow w a) b =
  removeNodeFromWorkflow (removeNodeFromWorkflow w b) a /\
  removeNodeFromWorkflow (removeNodeFromWorkflow w a) a = removeNodeFromWorkflow w a.
Proof.
  unfold removeNodeFromWorkflow. simpl. split.
  - rewrite (filter_comm (fun n => negb (String.eqb (id n) b))),
      (filter_comm (fun e => negb (String.eqb (sourceNodeId e) b) &&
                             negb (String.eqb (targetNodeId e) b))).
    reflexivity.
  - rewrite !filter_idem. reflexivity.
Qed.

(** ** [updateNodeInWorkflow] and [handleNodeChange] *)

Lemma map_id_ext {A} (f : A -> A) l :
  (forall a, In a l -> f a = a) -> map f l = l.
Proof.
  induction l as [|a l IH]; intros H; [reflexivity|].
  simpl. rewrite (H a (or_introl eq_refl)), IH; [reflexivity|].
  intros b Hb. apply H. right. exact Hb.
Qed.

(** An update naming an id that no node has leaves the workflow as it is,
    with [updateNodeInWorkflow] and with the [handleNodeChange] updater. *)
Theorem update_unknown_node_noop w i :
  (forall n, In n (nodes w) -> id n <> i) ->
  (forall u, updateNodeInWorkflow w i u = w) /\
  (forall nd isDragging, id nd = i -> handleNodeChange nd isDragging w = w).
Proof.
  intros H. destruct w as [ns ws]. simpl in H. split.
  - intros u. unfold updateNodeInWorkflow. simpl.
    rewrite map_id_ext; [reflexivity|].
    intros n Hn. rewrite (proj2 (String.eqb_neq _ _) (H n Hn)). reflexivity.
  - intros nd isDragging <-. unfold handleNodeChange. simpl.
    rewrite map_id_ext; [reflexivity|].
    intros n Hn. rewrite (proj2 (String.eqb_neq _ _) (H n Hn)). reflexivity.
Qed.

Lemma update_unknown_node_noop_witness :
  let w := mkWorkflow [mkNode "A" "t" (mkPos 0 0) JNull] [] in
  (forall n, In n (nodes w) -> id n <> "Z") /\
  updateNodeInWorkflow w "Z" (mkUpdate None None (Some (mkPos 5 5)) None) = w.
Proof.
  intros w.
  assert (H : forall n, In n (nodes w) -> id n <> "Z").
  { simpl. intros n [<-|[]]. simpl. discriminate. }
  split; [exact H|]. exact (proj1 (update_unknown_node_noop w "Z" H) _).
Defined.

(** An update without an [id] field keeps the wires and the list of node
    ids; every node with the given id becomes the node merged with the
    update, and every other node is kept as it is. *)
Theorem update_node_keeps_ids w i u :
  upd_id u = None ->
  let r := updateNodeInWorkflow w i u in
  wires r = wires w /\
  map id (nodes r) = map id (nodes w) /\
  (forall n, In n (nodes w) -> id n = i -> In (merge_update n u) (nodes r)) /\
  (forall n, In n (nodes w) -> id n <> i -> In n (nodes r)).
Proof.
  intros Hu r. unfold r, updateNodeInWorkflow. simpl.
  split; [reflexivity|]. split; [|split].
  - rewrite map_map. apply map_ext. intros n.
    destruct (String.eqb (id n) i); [|reflexivity].
    unfold merge_update. rewrite Hu. reflexivity.
  - intros n Hn Hi. apply in_map_iff. exists n. split; [|exact Hn].
    rewrite Hi, String.eqb_refl. reflexivity.
  - intros n Hn Hi. apply in_map_iff. exists n. split; [|exact Hn].
    apply String.eqb_neq in Hi. rewrite Hi. reflexivity.
Qed.

Lemma update_node_keeps_ids_witness :
  upd_id (mkUpdate None (Some "action") None None) = None /\
  map id (nodes (updateNodeInWorkflow
                   (mkWorkflow [mkNode "A" "t" (mkPos 0 0) JNull] []) "A"
                   (mkUpdate None (Some "action") None None))) = ["A"].
Proof.
  split; [reflexivity|].
  exact (proj1 (proj2 (update_node_keeps_ids
                         (mkWorkflow [mkNode "A" "t" (mkPos 0 0) JNull] []) "A"
                         (mkUpdate None (Some "action") None None) eq_refl))).
Defined.

(** ** [deserializeWorkflow] on arbitrary input *)

(** Text [JSON.parse] rejects, and any document whose [nodes] and [wires]
    read as absent or falsy (including [null], on which the read throws),
    give the empty workflow. *)
Theorem deserialize_falls_back_to_empty v :
  match get_prop v "nodes" with Some e => js_truthy e = false | None => True end ->
  match get_prop v "wires" with Some e => js_truthy e = false | None => True end ->
  deserializeWorkflow (JsonDoc v) = createWorkflow_empty /\
  deserializeWorkflow InvalidJson = createWorkflow_empty.
Proof.
  intros Hn Hw. split; [|reflexivity].
  unfold deserializeWorkflow, JSON_parse.
  destruct (get_prop v "nodes") as [nv|], (get_prop v "wires") as [wv|];
    try reflexivity.
  unfold js_or. rewrite Hn, Hw. reflexivity.
Qed.

Lemma deserialize_falls_back_to_empty_witness :
  deserializeWorkflow (JsonDoc (JObj [("nodes", JNull)])) = createWorkflow_empty /\
  deserializeWorkflow InvalidJson = createWorkflow_empty.
Proof.
  apply (deserialize_falls_back_to_empty (JObj [("nodes", JNull)]));
    vm_compute; reflexivity.
Defined.

(** [deserializeWorkflow] checks nothing: in any object document, with
    its keys in any order, truthy [nodes] and [wires] values of any kind
    (a number, a string, an object) are returned as they are, and every
    other key is dropped. *)
Theorem deserialize_does_not_validate ps nv wv :
  props_lookup ps "nodes" = Some nv -> props_lookup ps "wires" = Some wv ->
  js_truthy nv = true -> js_truthy wv = true ->
  deserializeWorkflow (JsonDoc (JObj ps)) = JObj [("nodes", nv); ("wires", wv)].
Proof.
  intros Ln Lw Hn Hw. unfold deserializeWorkflow, JSON_parse.
  rewrite !get_prop_obj, Ln, Lw.
  unfold js_or. rewrite Hn, Hw. reflexivity.
Qed.

Lemma deserialize_does_not_validate_witness :
  deserializeWorkflow
    (JsonDoc (JObj [("version", JNum 2); ("wires", JStr "x"); ("nodes", JNum 5)])) =
  JObj [("nodes", JNum 5); ("wires", JStr "x")].
Proof. apply deserialize_does_not_validate; reflexivity. Defined.

(** ** Handle positions ([getHandlePosition]) *)

Lemma handle_position_array n (isOutput : bool) hs i :
  get_prop (data n) (if isOutput then "outputs" else "inputs") = Some (JArr hs) ->
  let k := inject_Z (Z.of_nat (List.length hs)) in
  let total := if Qeq_bool k 0 then 1 else k in
  getHandlePosition n isOutput i =
  Some (mkPos (if isOutput then x (position n) + 160 else x (position n))
              (y (position n) +
               80 * (if Qeq_bool total 1 then 50 else ((i + 1) / (total + 1)) * 100) / 100)).
Proof.
  intros H k total. unfold getHandlePosition. rewrite H.
  unfold js_or, js_length, js_truthy. fold k.
  destruct (Qeq_bool k 0); reflexivity.
Qed.

Lemma inject_nat_eq_bool (k m : nat) :
  Qeq_bool (inject_Z (Z.of_nat k)) (inject_Z (Z.of_nat m)) = Nat.eqb k m.
Proof.
  destruct (Qeq_bool _ _) eqn:E, (Nat.eqb k m) eqn:F; try reflexivity.
  - apply Qeq_bool_iff in E. unfold Qeq in E. simpl in E.
    apply Nat.eqb_neq in F. lia.
  - apply Nat.eqb_eq in F. subst m. rewrite Qeq_bool_refl in E. discriminate.
Qed.

Lemma frac_bounds (a b : Z) : (0 < a)%Z -> (a < b)%Z ->
  0 < inject_Z a / inject_Z b /\ inject_Z a / inject_Z b < 1.
Proof.
  intros Ha Hb. assert (Hb0 : 0 < inject_Z b) by (unfold Qlt; simpl; lia).
  split.
  - apply Qlt_shift_div_l; [exact Hb0|]. rewrite Qmult_0_l. unfold Qlt; simpl; lia.
  - apply Qlt_shift_div_r; [exact Hb0|]. rewrite Qmult_1_l. unfold Qlt; simpl; lia.
Qed.

(** Output handles sit on the right edge of the node and input handles on
    the left edge.  With an array of [k] handles, handle [i < k] lies
    strictly between the top and the bottom of the node, and a handle of
    larger index lies lower; with at most one handle, every index is drawn
    at mid-height. *)
Theorem handle_positions_on_node_edge n (isOutput : bool) hs :
  get_prop (data n) (if isOutput then "outputs" else "inputs") = Some (JArr hs) ->
  (forall i, (i < List.length hs)%nat -> exists p,
     getHandlePosition n isOutput (inject_Z (Z.of_nat i)) = Some p /\
     x p = (if isOutput then x (position n) + NODE_WIDTH else x (position n)) /\
     y (position n) < y p < y (position n) + NODE_HEIGHT) /\
  (forall i j p q, (i < j)%nat -> (j < List.length hs)%nat ->
     getHandlePosition n isOutput (inject_Z (Z.of_nat i)) = Some p ->
     getHandlePosition n isOutput (inject_Z (Z.of_nat j)) = Some q ->
     y p < y q) /\
  ((List.length hs <= 1)%nat -> forall i, exists p,
     getHandlePosition n isOutput i = Some p /\
     y p == y (position n) + NODE_HEIGHT / 2).
Proof.
  intros H.
  pose proof (handle_position_array n isOutput hs) as HP.
  specialize (fun i => HP i H). cbv zeta in HP.
  set (k := List.length hs) in *.
  assert (Hk0 : forall m, Qeq_bool (inject_Z (Z.of_nat m)) 0 = Nat.eqb m 0)
    by (intros m; exact (inject_nat_eq_bool m 0)).
  assert (Hk1 : forall m, Qeq_bool (inject_Z (Z.of_nat m)) 1 = Nat.eqb m 1)
    by (intros m; exact (inject_nat_eq_bool m 1)).
  rewrite Hk0 in HP.
  (* the y coordinate of handle [i] for [k >= 2] *)
  assert (Hy : forall i, (2 <= k)%nat ->
            y (position n) + 80 * (((inject_Z (Z.of_nat i) + 1) /
                                    (inject_Z (Z.of_nat k) + 1)) * 100) / 100 ==
            y (position n) + 80 * (inject_Z (Z.of_nat i + 1) / inject_Z (Z.of_nat k + 1))).
  { intros i Hk. rewrite !inject_Z_plus. field.
    intros E. unfold Qeq in E. simpl in E. lia. }
  split; [|split].
  - intros i Hi. eexists. split; [apply HP|]. split; [reflexivity|].
    cbn [y].
    destruct (Nat.eqb k 0) eqn:E0; [apply Nat.eqb_eq in E0; lia|].
    rewrite Hk1. destruct (Nat.eqb k 1) eqn:E1.
    + unfold Qlt, Qplus, Qmult, Qdiv, Qinv, NODE_HEIGHT; simpl.
      destruct (y (position n)) as [yn yd]; simpl. split; nia.
    + apply Nat.eqb_neq in E1. rewrite (Hy i ltac:(lia)).
      destruct (frac_bounds (Z.of_nat i + 1) (Z.of_nat k + 1)) as [F0 F1]; [lia|lia|].
      unfold NODE_HEIGHT. split.
      * rewrite <- (Qplus_0_r (y (position n))) at 1.
        apply Qplus_lt_r. apply (Qmult_lt_l 0 _ 80 ltac:(reflexivity)) in F0.
        rewrite Qmult_0_r in F0. exact F0.
      * apply Qplus_lt_r. apply (Qmult_lt_l _ 1 80 ltac:(reflexivity)) in F1.
        rewrite Qmult_1_r in F1. exact F1.
  - intros i j p q Hij Hj Hp Hq.
    rewrite HP in Hp, Hq. injection Hp as <-. injection Hq as <-. cbn [y].
    destruct (Nat.eqb k 0) eqn:E0; [apply Nat.eqb_eq in E0; lia|].
    rewrite Hk1. destruct (Nat.eqb k 1) eqn:E1; [apply Nat.eqb_eq in E1; lia|].
    apply Nat.eqb_neq in E1.
    rewrite (Hy i ltac:(lia)), (Hy j ltac:(lia)).
    apply Qplus_lt_r. apply Qmult_lt_l; [reflexivity|].
    unfold Qdiv. apply Qmult_lt_r.
    + apply Qinv_lt_0_compat. unfold Qlt; simpl; lia.
    + unfold Qlt; simpl; lia.
  - intros Hk i. eexists. split; [apply HP|]. cbn [y].
    destruct (Nat.eqb k 0) eqn:E0.
    + rewrite Qeq_bool_refl. unfold NODE_HEIGHT. field.
    + rewrite Hk1. destruct (Nat.eqb k 1) eqn:E1; [unfold NODE_HEIGHT; field|].
      apply Nat.eqb_neq in E0, E1. lia.
Qed.

Lemma handle_positions_on_node_edge_witness :
  exists p, getHandlePosition
              (mkNode "A" "t" (mkPos 100 100)
                 (JObj [("outputs", JArr [JNull; JNull; JNull])])) true 1 = Some p /\
            x p = 100 + NODE_WIDTH /\ 100 < y p < 100 + NODE_HEIGHT.
Proof.
  exact (proj1 (handle_positions_on_node_edge
                  (mkNode "A" "t" (mkPos 100 100)
                     (JObj [("outputs", JArr [JNull; JNull; JNull])])) true
                  [JNull; JNull; JNull] eq_refl) 1%nat ltac:(simpl; lia)).
Defined.

(** ** Wire rendering ([Wire], [parseInt]) *)

Lemma digit_char d : (d < 10)%nat ->
  digit_value (ascii_of_nat (48 + d)) = Some d.
Proof.
  intros H. do 10 (destruct d as [|d]; [reflexivity|]). lia.
Qed.

Lemma dec_digit_range c : is_digit_of 10 c = true ->
  (48 <= nat_of_ascii c <= 57)%nat.
Proof.
  unfold is_digit_of, digit_value.
  destruct (Nat.leb 48 (nat_of_ascii c) && Nat.leb (nat_of_ascii c) 57) eqn:E.
  - intros _. apply andb_true_iff in E as [E1 E2].
    apply Nat.leb_le in E1, E2. lia.
  - destruct (Nat.leb 97 (nat_of_ascii c) && Nat.leb (nat_of_ascii c) 122) eqn:E'.
    + apply andb_true_iff in E' as [E1 _]. apply Nat.leb_le in E1.
      intros H. apply Nat.ltb_lt in H. lia.
    + destruct (Nat.leb 65 (nat_of_ascii c) && Nat.leb (nat_of_ascii c) 90) eqn:E''.
      * apply andb_true_iff in E'' as [E1 _]. apply Nat.leb_le in E1.
        intros H. apply Nat.ltb_lt in H. lia.
      * discriminate.
Qed.

Lemma dec_digit_not c (c' : ascii) : is_digit_of 10 c = true ->
  (nat_of_ascii c' < 48 \/ 57 < nat_of_ascii c')%nat -> Ascii.eqb c c' = false.
Proof.
  intros H Hc'. apply dec_digit_range in H.
  destruct (Ascii.eqb_spec c c'); [subst; lia|reflexivity].
Qed.

Lemma append_assoc_str (a b c : string) :
  String.append (String.append a b) c = String.append a (String.append b c).
Proof. induction a as [|ch a IH]; simpl; [reflexivity|rewrite IH; reflexivity]. Qed.

Lemma length_append_str (a b : string) :
  String.length (String.append a b) = (String.length a + String.length b)%nat.
Proof. induction a as [|ch a IH]; simpl; [reflexivity|rewrite IH; reflexivity]. Qed.

(** The decimal digits written by [digits_aux] read back as the number. *)
Lemma digits_aux_spec f : forall n acc, (n < f)%nat ->
  exists c ds, digits_aux f n acc = String c (String.append ds acc) /\
    is_digit_of 10 c = true /\
    (forall c2 ds2, ds = String c2 ds2 -> is_digit_of 10 c2 = true) /\
    (forall a rest, read_digits 10 (String c (String.append ds rest)) a =
       read_digits 10 rest (a * 10 ^ Z.of_nat (S (String.length ds)) + Z.of_nat n)%Z).
Proof.
  induction f as [|f IH]; intros n acc Hn; [lia|].
  assert (Hm : (n mod 10 < 10)%nat) by (apply Nat.mod_upper_bound; lia).
  assert (Hd : is_digit_of 10 (ascii_of_nat (48 + n mod 10)) = true).
  { unfold is_digit_of. rewrite digit_char by exact Hm. apply Nat.ltb_lt. exact Hm. }
  assert (Hread : forall a rest,
            read_digits 10 (String (ascii_of_nat (48 + n mod 10)) rest) a =
            read_digits 10 rest (a * 10 + Z.of_nat (n mod 10))%Z).
  { intros a rest. cbn [read_digits]. rewrite digit_char by exact Hm.
    replace (Nat.ltb (n mod 10) 10) with true by (symmetry; apply Nat.ltb_lt; exact Hm).
    reflexivity. }
  cbn [digits_aux]. destruct (Nat.ltb n 10) eqn:Elt.
  - apply Nat.ltb_lt in Elt.
    exists (ascii_of_nat (48 + n mod 10)), EmptyString.
    split; [reflexivity|]. split; [exact Hd|]. split; [discriminate|].
    intros a rest. simpl String.append. rewrite Hread.
    rewrite Nat.mod_small by exact Elt. f_equal; simpl; lia.
  - apply Nat.ltb_ge in Elt.
    destruct (IH (Nat.div n 10) (String (ascii_of_nat (48 + n mod 10)) acc))
      as (c & ds & Heq & Hc & Hc2 & Hr).
    { assert (n / 10 < n)%nat by (apply Nat.div_lt; lia). lia. }
    exists c, (String.append ds (String (ascii_of_nat (48 + n mod 10)) EmptyString)).
    split; [rewrite Heq, append_assoc_str; reflexivity|].
    split; [exact Hc|]. split.
    + intros c2 ds2 E. destruct ds as [|c3 ds3].
      * simpl in E. injection E as <- _. exact Hd.
      * simpl in E. injection E as <- _. apply (Hc2 c3 ds3 eq_refl).
    + intros a rest. rewrite append_assoc_str. simpl (String.append (String _ EmptyString) rest).
      rewrite Hr, Hread. f_equal.
      rewrite length_append_str. simpl String.length.
      pose proof (Nat.div_mod n 10 ltac:(lia)) as Hdm.
      replace (Z.of_nat (S (String.length ds + 1)))
        with (Z.succ (Z.of_nat (S (String.length ds)))) by lia.
      rewrite Z.pow_succ_r by lia. lia.
Qed.

(** [parseInt] reads back the index written by [number_toString]. *)
Lemma parseInt_number_toString n :
  parseInt (number_toString n) = Some (Z.of_nat n) /\ number_toString n <> "".
Proof.
  destruct (digits_aux_spec (S n) n "" ltac:(lia)) as (c & ds & Heq & Hc & Hc2 & Hr).
  unfold number_toString. rewrite Heq. split; [|discriminate].
  unfold parseInt. simpl skip_spaces.
  assert (Hsp : is_js_space c = false).
  { apply dec_digit_range in Hc. unfold is_js_space. cbv zeta.
    assert (E1 : Nat.leb 9 (nat_of_ascii c) && Nat.leb (nat_of_ascii c) 13 = false)
      by (apply andb_false_iff; right; apply Nat.leb_gt; lia).
    assert (E2 : Nat.eqb (nat_of_ascii c) 32 = false) by (apply Nat.eqb_neq; lia).
    rewrite E1, E2. reflexivity. }
  rewrite Hsp.
  rewrite (dec_digit_not c "-"%char Hc) by (vm_compute; lia).
  rewrite (dec_digit_not c "+"%char Hc) by (vm_compute; lia).
  assert (Hrad : match String c (String.append ds "") with
                 | String c0 (String c1 s') =>
                     if Ascii.eqb c0 "0"%char && (Ascii.eqb c1 "x"%char || Ascii.eqb c1 "X"%char)
                     then (16%nat, s') else (10%nat, String c (String.append ds ""))
                 | _ => (10%nat, String c (String.append ds ""))
                 end = (10%nat, String c (String.append ds ""))).
  { destruct ds as [|c1 ds1]; [reflexivity|]. cbn [String.append].
    pose proof (Hc2 c1 ds1 eq_refl) as H1.
    rewrite (dec_digit_not c1 "x"%char H1), (dec_digit_not c1 "X"%char H1)
      by (vm_compute; lia).
    rewrite andb_false_r. reflexivity. }
  rewrite Hrad, Hc, Hr. cbn [read_digits]. f_equal. lia.
Qed.

Lemma handle_or_zero_number n :
  handle_or_zero (Some (number_toString n)) = number_toString n.
Proof.
  unfold handle_or_zero. destruct (parseInt_number_toString n) as [_ Hne].
  apply String.eqb_neq in Hne. rewrite Hne. reflexivity.
Qed.

(** A wire made by a connection gesture from handle [i] of node [s] to
    handle [j] of node [t] is drawn from the output handle to the input
    handle that the gesture used: the handle indices written as strings by
    [handleEndConnection] are read back by [parseInt] in [Wire]. *)
Theorem connection_wire_drawn_at_handles s ty i start wid t j ns sn tn :
  find_node s ns = Some sn -> find_node t ns = Some tn ->
  Wire_render ns (new_wire (handleStartConnection s ty i start) s wid t j) =
  match ty with
  | HOutput =>
      match getHandlePosition sn true (inject_Z (Z.of_nat i)),
            getHandlePosition tn false (inject_Z (Z.of_nat j)) with
      | Some p, Some q => WirePath p q | _, _ => WireUnmodelled end
  | HInput =>
      match getHandlePosition tn true (inject_Z (Z.of_nat j)),
            getHandlePosition sn false (inject_Z (Z.of_nat i)) with
      | Some p, Some q => WirePath p q | _, _ => WireUnmodelled end
  end.
Proof.
  intros Hs Ht. destruct ty; unfold Wire_render, new_wire, handleStartConnection;
    cbn -[number_toString parseInt getHandlePosition find_node handle_or_zero].
  - rewrite Ht, Hs, !handle_or_zero_number,
      (proj1 (parseInt_number_toString j)), (proj1 (parseInt_number_toString i)).
    reflexivity.
  - rewrite Hs, Ht, !handle_or_zero_number,
      (proj1 (parseInt_number_toString i)), (proj1 (parseInt_number_toString j)).
    reflexivity.
Qed.

Lemma connection_wire_drawn_at_handles_witness :
  let A := mkNode "A" "t" (mkPos 0 0) (JObj [("outputs", JArr [JNull; JNull])]) in
  let B := mkNode "B" "t" (mkPos 300 0) (JObj [("inputs", JArr [JNull])]) in
  Wire_render [A; B]
    (new_wire (handleStartConnection "A" HOutput 1 (mkPos 0 0)) "A" "w" "B" 0) =
  match getHandlePosition A true 1, getHandlePosition B false 0 with
  | Some p, Some q => WirePath p q | _, _ => WireUnmodelled end.
Proof.
  intros A B.
  exact (connection_wire_drawn_at_handles "A" HOutput 1 (mkPos 0 0) "w" "B" 0
           [A; B] A B eq_refl eq_refl).
Defined.

Lemma find_node_in nid ns :
  (exists n, In n ns /\ id n = nid) -> exists n, find_node nid ns = Some n.
Proof.
  intros (n & Hn & Hid). unfold find_node.
  destruct (find (fun m => String.eqb (id m) nid) ns) as [m|] eqn:E; [exists m; reflexivity|].
  exfalso. apply (find_none _ _ E) in Hn. rewrite Hid, String.eqb_refl in Hn. discriminate.
Qed.

(** In a workflow whose wires all reference existing nodes, [Wire] draws
    every wire (it never returns [null]); a wire whose source or target
    node is missing is not drawn. *)
Theorem referenced_wires_are_drawn w :
  wires_reference_nodes w ->
  (forall e, In e (wires w) -> Wire_render (nodes w) e <> WireNull) /\
  (forall e, find_node (sourceNodeId e) (nodes w) = None \/
             find_node (targetNodeId e) (nodes w) = None ->
             Wire_render (nodes w) e = WireNull).
Proof.
  intros Hw. split.
  - intros e He. destruct (Hw e He) as [Hs Ht].
    destruct (find_node_in _ _ Hs) as [sn Esn], (find_node_in _ _ Ht) as [tn Etn].
    unfold Wire_render. rewrite Esn, Etn.
    destruct (parseInt (handle_or_zero (sourceOutput e))),
             (parseInt (handle_or_zero (targetInput e))); try discriminate.
    destruct (getHandlePosition sn true (inject_Z z)), (getHandlePosition tn false (inject_Z z0)); discriminate.
  - intros e [H|H]; unfold Wire_render; rewrite H; [reflexivity|].
    destruct (find_node (sourceNodeId e) (nodes w)); reflexivity.
Qed.

Lemma referenced_wires_are_drawn_witness :
  let w := mkWorkflow [mkNode "A" "t" (mkPos 0 0) (JObj []);
                       mkNode "B" "t" (mkPos 300 0) (JObj [])]
                      [mkWire "w1" "A" "B" (Some "0") (Some "0")] in
  wires_reference_nodes w /\
  Wire_render (nodes w) (mkWire "w1" "A" "B" (Some "0") (Some "0")) <> WireNull.
Proof.
  intros w.
  assert (Hw : wires_reference_nodes w).
  { intros e [<-|[]]. simpl. split.
    - eexists. split; [left; reflexivity|reflexivity].
    - eexists. split; [right; left; reflexivity|reflexivity]. }
  split; [exact Hw|].
  exact (proj1 (referenced_wires_are_drawn w Hw) _ (or_introl eq_refl)).
Defined.

(** ** Selection and keyboard *)

Lemma NoDup_snoc {A} (l : list A) a : NoDup l -> ~ In a l -> NoDup (l ++ [a]).
Proof.
  induction l as [|b l IH]; simpl; intros Hl Ha.
  - constructor; [intros []|constructor].
  - inversion Hl as [|b' l' Hb Hl' E]; subst. constructor.
    + intros Hin. apply in_app_or in Hin as [Hin|[E|[]]]; [contradiction|].
      apply Ha. left. symmetry. exact E.
    + apply IH; [exact Hl'|]. intros Hin. apply Ha. right. exact Hin.
Qed.

Lemma existsb_eqb_In a l : existsb (String.eqb a) l = true <-> In a l.
Proof.
  rewrite existsb_exists. split.
  - intros (b & Hb & E). apply String.eqb_eq in E. subst. exact Hb.
  - intros H. exists a. split; [exact H|apply String.eqb_refl].
Qed.

(** [handleNodeSelect] never puts an id twice into a selection without
    duplicates; with Ctrl or Cmd held, clicking an unselected node twice
    gives back the selection it started from. *)
Theorem node_select_toggles nodeId ev prev :
  NoDup prev ->
  NoDup (handleNodeSelect nodeId ev prev) /\
  (forall m, mod_ctrlKey m || mod_metaKey m = true -> ~ In nodeId prev ->
   handleNodeSelect nodeId (Some m) (handleNodeSelect nodeId (Some m) prev) = prev).
Proof.
  intros Hd. split.
  - unfold handleNodeSelect.
    destruct (match ev with Some m => mod_ctrlKey m || mod_metaKey m | None => false end).
    + destruct (existsb (String.eqb nodeId) prev) eqn:E.
      * apply NoDup_filter. exact Hd.
      * apply NoDup_snoc; [exact Hd|]. intros Hin.
        apply existsb_eqb_In in Hin. congruence.
    + constructor; [intros []|constructor].
  - intros m Hm Hn. unfold handleNodeSelect. rewrite Hm.
    destruct (existsb (String.eqb nodeId) prev) eqn:E.
    { apply existsb_eqb_In in E. contradiction. }
    assert (E' : existsb (String.eqb nodeId) (prev ++ [nodeId]) = true).
    { apply existsb_eqb_In. apply in_or_app. right. left. reflexivity. }
    rewrite E', filter_app. simpl. rewrite String.eqb_refl, app_nil_r.
    apply filter_all_true. intros i Hi. apply negb_true_iff, String.eqb_neq.
    intros ->. contradiction.
Qed.

Lemma node_select_toggles_witness :
  NoDup ["A"; "B"] /\
  handleNodeSelect "C" (Some (mkMods true false))
    (handleNodeSelect "C" (Some (mkMods true false)) ["A"; "B"]) = ["A"; "B"].
Proof.
  assert (Hd : NoDup ["A"; "B"]).
  { constructor; [intros [E|[]]; discriminate|].
    constructor; [intros []|constructor]. }
  split; [exact Hd|].
  apply (proj2 (node_select_toggles "C" None ["A"; "B"] Hd) (mkMods true false)).
  - reflexivity.
  - intros [E|[E|[]]]; discriminate.
Defined.

Lemma fold_handleNodeDelete sel w :
  let r := fold_left (fun acc n => handleNodeDelete n acc) sel w in
  (forall nd, In nd (nodes r) <-> In nd (nodes w) /\ ~ In (id nd) sel) /\
  (forall e, In e (wires r) <->
             In e (wires w) /\ ~ In (sourceNodeId e) sel /\ ~ In (targetNodeId e) sel).
Proof.
  revert w. induction sel as [|i sel IH]; intros w; cbn zeta.
  - simpl. split; intros; tauto.
  - simpl. destruct (IH (handleNodeDelete i w)) as [IHn IHe]. split.
    + intros nd. rewrite IHn. unfold handleNodeDelete. simpl.
      rewrite filter_In, negb_true_iff, String.eqb_neq. intuition congruence.
    + intros e. rewrite IHe. unfold handleNodeDelete. simpl.
      rewrite filter_In, andb_true_iff, !negb_true_iff, !String.eqb_neq.
      intuition congruence.
Qed.

Lemma fold_selection_delete sel acc :
  forall i, In i (fold_left (fun acc n => handleNodeDelete_selection n acc) sel acc)
            <-> In i acc /\ ~ In i sel.
Proof.
  revert acc. induction sel as [|n sel IH]; intros acc i; simpl.
  - tauto.
  - rewrite IH. unfold handleNodeDelete_selection.
    rewrite filter_In, negb_true_iff, String.eqb_neq. intuition congruence.
Qed.

(** [handleKeyDown]: Escape clears the selection and changes nothing else;
    Delete with a non-empty selection empties the selection, ends a
    connection in progress, calls [preventDefault], keeps exactly the
    nodes that were not selected and exactly the wires with neither end
    selected, so the wires still reference existing nodes. *)
Theorem delete_key_removes_selection sel cs w :
  handleKeyDown "Escape" sel cs w = ([], cs, w, false) /\
  (sel <> [] ->
   let '(sel', cs', w', pd) := handleKeyDown "Delete" sel cs w in
   sel' = [] /\ isConnecting cs' = false /\ pd = true /\
   (forall n, In n (nodes w') <-> In n (nodes w) /\ ~ In (id n) sel) /\
   (forall e, In e (wires w') <->
              In e (wires w) /\ ~ In (sourceNodeId e) sel /\ ~ In (targetNodeId e) sel) /\
   (wires_reference_nodes w -> wires_reference_nodes w')).
Proof.
  split; [reflexivity|]. intros Hs.
  unfold handleKeyDown. cbn [String.eqb Ascii.eqb Bool.eqb andb].
  destruct sel as [|s0 sel0]; [contradiction|]. cbn [List.length Nat.ltb Nat.leb].
  set (sel := s0 :: sel0).
  destruct (fold_handleNodeDelete sel w) as [Hn He].
  set (w' := fold_left (fun acc n => handleNodeDelete n acc) sel w) in *.
  split; [|split; [|split; [reflexivity|split; [exact Hn|split; [exact He|]]]]].
  - destruct (fold_left (fun acc n => handleNodeDelete_selection n acc) sel sel)
      as [|i l] eqn:E; [reflexivity|].
    exfalso. pose proof (proj1 (fold_selection_delete sel sel i)) as H.
    rewrite E in H. destruct (H (or_introl eq_refl)). contradiction.
  - destruct (isConnecting cs) eqn:E; [reflexivity|exact E].
  - intros Hw e Hin. apply He in Hin as (Hin & Hs' & Ht).
    destruct (Hw e Hin) as [(a & Ha & Ea) (b & Hb & Eb)]. split.
    + exists a. split; [apply Hn; split; [exact Ha|congruence]|exact Ea].
    + exists b. split; [apply Hn; split; [exact Hb|congruence]|exact Eb].
Qed.

Lemma delete_key_removes_selection_witness :
  ["A"] <> [] /\
  let '(sel', _, w', _) :=
    handleKeyDown "Delete" ["A"] idle_connection
      (mkWorkflow [mkNode "A" "t" (mkPos 0 0) JNull; mkNode "B" "t" (mkPos 0 0) JNull]
                  [mkWire "w" "A" "B" None None]) in
  sel' = [].
Proof.
  assert (H : ["A"] <> []) by discriminate. split; [exact H|].
  pose proof (proj2 (delete_key_removes_selection ["A"] idle_connection
    (mkWorkflow [mkNode "A" "t" (mkPos 0 0) JNull; mkNode "B" "t" (mkPos 0 0) JNull]
                [mkWire "w" "A" "B" None None])) H) as P.
  destruct (handleKeyDown "Delete" ["A"] idle_connection _) as [[[s c] w'] b].
  exact (proj1 P).
Defined.

(** ** Panning *)

Lemma mouse_moves_keep_scale ps moves vt :
  scale (fold_left (fun v (m : Q * Q) => handleCanvasMouseMove true ps v (fst m) (snd m))
           moves vt) = scale vt.
Proof.
  revert vt. induction moves as [|m moves IH]; intros vt; [reflexivity|].
  simpl. rewrite IH. reflexivity.
Qed.

(** A mouse pan started with the primary button on the background keeps
    the world point grabbed at mouse-down under the cursor after any
    sequence of moves, and never changes the scale. *)
Theorem mouse_pan_keeps_grabbed_point target cx0 cy0 vt ip ps0 moves cx cy r :
  is_background target = true ->
  let '(panning, ps, pd) := handleCanvasMouseDown target 0 cx0 cy0 vt ip ps0 in
  let vt' := fold_left (fun v (m : Q * Q) => handleCanvasMouseMove panning ps v (fst m) (snd m))
               (moves ++ [(cx, cy)]) vt in
  panning = true /\ pd = true /\ scale vt' = scale vt /\
  x (client_to_world r vt' cx cy) == x (client_to_world r vt cx0 cy0) /\
  y (client_to_world r vt' cx cy) == y (client_to_world r vt cx0 cy0).
Proof.
  intros Hb. unfold handleCanvasMouseDown. rewrite Hb. cbn [andb Nat.eqb].
  rewrite fold_left_app. cbn [fold_left fst snd].
  set (vm := fold_left _ moves vt).
  assert (Hs : scale vm = scale vt) by apply mouse_moves_keep_scale.
  unfold handleCanvasMouseMove, client_to_world. cbn [scale tx ty x y].
  rewrite Hs. split; [reflexivity|split; [reflexivity|split; [reflexivity|]]].
  split.
  - setoid_replace (cx - rect_left r - (cx - (cx0 - tx vt)))
      with (cx0 - rect_left r - tx vt) by ring. reflexivity.
  - setoid_replace (cy - rect_top r - (cy - (cy0 - ty vt)))
      with (cy0 - rect_top r - ty vt) by ring. reflexivity.
Qed.

Lemma mouse_pan_keeps_grabbed_point_witness :
  is_background (mkTarget true "DIV") = true /\
  scale (fold_left (fun v (m : Q * Q) =>
           handleCanvasMouseMove true (mkPos (10 - 0) (20 - 0)) v (fst m) (snd m))
           ([(15, 25)] ++ [(40, 70)]) (mkVT 0 0 2)) = 2.
Proof.
  split; [reflexivity|].
  exact (proj1 (proj2 (proj2 (mouse_pan_keeps_grabbed_point (mkTarget true "DIV")
           10 20 (mkVT 0 0 2) false (mkPos 0 0) [(15, 25)] 40 70 (mkRect 0 0)
           eq_refl)))).
Defined.

Lemma touch_moves_pan dist ts ps rect moves vt :
  exists v,
    fold_left (fun o tm => match o with
                 | Some v => fst (handleTouchMove dist [tm] ts true ps rect v)
                 | None => None end) moves (Some vt) = Some v /\
    scale v = scale vt.
Proof.
  revert vt. induction moves as [|m moves IH]; intros vt; [exists vt; split; reflexivity|].
  cbn [fold_left handleTouchMove fst].
  destruct (IH (mkVT (touch_clientX m - x ps) (touch_clientY m - y ps) (scale vt)))
    as (v & Hv & Hs).
  exists v. split; [exact Hv|exact Hs].
Qed.

(** The same for a one-finger pan started on the background: after any
    sequence of one-finger moves the world point first touched is under
    the finger, at the same scale. *)
Theorem touch_pan_keeps_touched_point dist t0 target rect vt ts ip ps0 moves t r :
  is_background target = true ->
  let '(ts', panning, ps, pd) := handleTouchStart dist [t0] target rect vt ts ip ps0 in
  let run := fold_left (fun o tm => match o with
               | Some v => fst (handleTouchMove dist [tm] ts' panning ps rect v)
               | None => None end) (moves ++ [t]) (Some vt) in
  panning = true /\ pd = true /\
  exists vt', run = Some vt' /\ scale vt' = scale vt /\
  x (client_to_world r vt' (touch_clientX t) (touch_clientY t)) ==
    x (client_to_world r vt (touch_clientX t0) (touch_clientY t0)) /\
  y (client_to_world r vt' (touch_clientX t) (touch_clientY t)) ==
    y (client_to_world r vt (touch_clientX t0) (touch_clientY t0)).
Proof.
  intros Hb. unfold handleTouchStart. rewrite Hb. cbv beta iota zeta.
  destruct (touch_moves_pan dist ts
              (mkPos (touch_clientX t0 - tx vt) (touch_clientY t0 - ty vt)) rect moves vt)
    as (vm & Hm & Hs).
  rewrite fold_left_app, Hm. cbn [fold_left handleTouchMove fst].
  split; [reflexivity|split; [reflexivity|]].
  eexists. split; [reflexivity|].
  unfold client_to_world. cbn [scale tx ty x y].
  rewrite Hs. split; [reflexivity|].
  split.
  - setoid_replace (touch_clientX t - rect_left r -
                    (touch_clientX t - (touch_clientX t0 - tx vt)))
      with (touch_clientX t0 - rect_left r - tx vt) by ring. reflexivity.
  - setoid_replace (touch_clientY t - rect_top r -
                    (touch_clientY t - (touch_clientY t0 - ty vt)))
      with (touch_clientY t0 - rect_top r - ty vt) by ring. reflexivity.
Qed.

Lemma touch_pan_keeps_touched_point_witness :
  is_background (mkTarget false "svg") = true /\
  exists vt',
    fold_left (fun o tm => match o with
                 | Some v => fst (handleTouchMove (fun _ _ => 0) [tm] None true
                                    (mkPos (10 - 0) (20 - 0)) None v)
                 | None => None end)
      ([mkTouchPt 15 25] ++ [mkTouchPt 40 70]) (Some (mkVT 0 0 2)) = Some vt' /\
    scale vt' = 2.
Proof.
  split; [reflexivity|].
  destruct (proj2 (proj2 (touch_pan_keeps_touched_point (fun _ _ => 0)
           (mkTouchPt 10 20) (mkTarget false "svg") None (mkVT 0 0 2) None false
           (mkPos 0 0) [mkTouchPt 15 25] (mkTouchPt 40 70) (mkRect 0 0) eq_refl)))
    as (vt' & E & Hs & _).
  exists vt'. split; [exact E|exact Hs].
Defined.

(** ** Zoom anchors and the scale range *)

Lemma zoom_about_fixes_anchor vt a b s' :
  ~ scale vt == 0 -> ~ s' == 0 ->
  (a - tx (zoom_about vt a b s')) / scale (zoom_about vt a b s') == (a - tx vt) / scale vt /\
  (b - ty (zoom_about vt a b s')) / scale (zoom_about vt a b s') == (b - ty vt) / scale vt.
Proof. intros H H'. unfold zoom_about. simpl. split; field; split; assumption. Qed.

Lemma clamp_nonzero z : ~ Qmax 0.1 (Qmin 3 z) == 0.
Proof.
  intros E. pose proof (proj1 (clamp_bounds z)) as H. rewrite E in H.
  apply (Qle_not_lt _ _ H). reflexivity.
Qed.

(** Wheel zoom and pinch zoom keep a point fixed: after a wheel step the
    world point under the cursor is unchanged, and after a pinch that sets
    a numeric transform the world point under the initial centre of the
    two fingers is unchanged (as long as the scale before the step is not
    0); a pinch whose fingers did not start at one point always sets a
    numeric transform. *)
Theorem zoom_keeps_anchor_point vt :
  ~ scale vt == 0 ->
  (forall isMac r ev vt', handleWheel isMac (Some r) vt ev = Some vt' ->
     x (client_to_world r vt' (wheel_clientX ev) (wheel_clientY ev)) ==
       x (client_to_world r vt (wheel_clientX ev) (wheel_clientY ev)) /\
     y (client_to_world r vt' (wheel_clientX ev) (wheel_clientY ev)) ==
       y (client_to_world r vt (wheel_clientX ev) (wheel_clientY ev))) /\
  (forall dist t1 t2 s ip ps r vt',
     fst (handleTouchMove dist [t1; t2] (Some s) ip ps (Some r) vt) = Some vt' ->
     (x (initialCenter s) - tx vt') / scale vt' == (x (initialCenter s) - tx vt) / scale vt /\
     (y (initialCenter s) - ty vt') / scale vt' == (y (initialCenter s) - ty vt) / scale vt) /\
  (forall dist t1 t2 s ip ps r, ~ initialDistance s == 0 ->
     exists vt', fst (handleTouchMove dist [t1; t2] (Some s) ip ps (Some r) vt) = Some vt').
Proof.
  intros Hs. split; [|split].
  - intros isMac r ev vt' H. unfold handleWheel in H.
    destruct (negb (wheel_should_zoom isMac ev)); [discriminate|].
    cbv zeta in H.
    match type of H with
    | context [Qeq_bool ?n (scale vt)] =>
        destruct (Qeq_bool n (scale vt)); simpl in H; injection H as <-;
        [split; reflexivity|]
    end.
    unfold client_to_world. cbn [x y].
    apply zoom_about_fixes_anchor; [exact Hs|apply clamp_nonzero].
  - intros dist t1 t2 s ip ps r vt' H. cbn [handleTouchMove fst] in H.
    destruct (proj1 (pinch_result s vt (dist t1 t2)) vt' H) as [[Hlo _] E].
    rewrite E. apply zoom_about_fixes_anchor; [exact Hs|].
    intros E0. rewrite E0 in Hlo. apply (Qle_not_lt _ _ Hlo). reflexivity.
  - intros dist t1 t2 s ip ps r Hi. cbn [handleTouchMove fst].
    rewrite (proj2 (pinch_result s vt (dist t1 t2)) Hi). eexists. reflexivity.
Qed.

Lemma zoom_keeps_anchor_point_witness :
  ~ scale (mkVT 0 0 1) == 0 /\
  x (client_to_world (mkRect 0 0)
       (zoom_about (mkVT 0 0 1) (50 - 0) (50 - 0) (Qmax 0.1 (Qmin 3 (1 + -1 * 0.1)))) 50 50) ==
  x (client_to_world (mkRect 0 0) (mkVT 0 0 1) 50 50).
Proof.
  assert (H : ~ scale (mkVT 0 0 1) == 0) by discriminate.
  split; [exact H|].
  exact (proj1 (proj1 (zoom_keeps_anchor_point (mkVT 0 0 1) H) false (mkRect 0 0)
                (mkWheel false 100 50 50) _ eq_refl)).
Defined.

Lemma content_center_zoom_about ns w h vt s' :
  ~ scale vt == 0 ->
  let c := getContentCenter ns w h vt in
  x (getContentCenter ns w h (zoom_about vt (x c) (y c) s')) == x c /\
  y (getContentCenter ns w h (zoom_about vt (x c) (y c) s')) == y c.
Proof.
  intros H. destruct ns as [|n0 rest]; simpl; [split; reflexivity|].
  split; field; exact H.
Qed.

(** The zoom buttons zoom about the content centre: after [zoomIn] or
    [zoomOut] the top-left node's centre is at the same screen point. *)
Theorem zoom_buttons_keep_content_center ns w h vt :
  ~ scale vt == 0 ->
  let c := getContentCenter ns w h vt in
  x (getContentCenter ns w h (zoomIn vt c)) == x c /\
  y (getContentCenter ns w h (zoomIn vt c)) == y c /\
  x (getContentCenter ns w h (zoomOut vt c)) == x c /\
  y (getContentCenter ns w h (zoomOut vt c)) == y c.
Proof.
  intros H c. unfold zoomIn, zoomOut.
  destruct (negb (Qeq_bool (snap_to_one (Qmin 3 (scale vt + 0.2))) (scale vt))),
           (negb (Qeq_bool (snap_to_one (Qmax 0.1 (scale vt - 0.2))) (scale vt)));
  repeat split; try reflexivity;
  try apply (content_center_zoom_about ns w h vt _ H).
Qed.

Lemma zoom_buttons_keep_content_center_witness :
  ~ scale (mkVT 5 7 1) == 0 /\
  let ns := [mkNode "A" "t" (mkPos 100 40) JNull; mkNode "B" "t" (mkPos 0 0) JNull] in
  let c := getContentCenter ns 800 600 (mkVT 5 7 1) in
  x (getContentCenter ns 800 600 (zoomIn (mkVT 5 7 1) c)) == x c.
Proof.
  assert (H : ~ scale (mkVT 5 7 1) == 0) by discriminate.
  split; [exact H|].
  exact (proj1 (zoom_buttons_keep_content_center
    [mkNode "A" "t" (mkPos 100 40) JNull; mkNode "B" "t" (mkPos 0 0) JNull]
    800 600 (mkVT 5 7 1) H)).
Defined.

Lemma snap_to_one_range v : 0.1 <= v <= 3 -> 0.1 <= snap_to_one v <= 3.
Proof. unfold snap_to_one. destruct (Qltb (Qabs (v - 1)) 0.1); [intros _; lra|auto]. Qed.

Lemma viewport_step_range dist ns w h rect vt e :
  0.1 <= scale vt <= 3 ->
  match viewport_step dist ns w h rect vt e with
  | Some v => 0.1 <= scale v <= 3
  | None => exists t1 t2 s ip ps, e = EvTouchMove [t1; t2] (Some s) ip ps /\
            rect <> None /\ initialDistance s == 0 /\
            (dist t1 t2 == 0 \/ initialScale s == 0)
  end.
Proof.
  intros [H1 H2].
  destruct e as [| | |isMac ev|touches ts ip ps|ip ps cx cy]; cbn [viewport_step].
  - unfold zoomIn. rewrite scale_after_update. apply snap_to_one_range.
    split; [apply Q.min_glb; lra|apply Q.le_min_l].
  - unfold zoomOut. rewrite scale_after_update. apply snap_to_one_range.
    split; [apply Q.le_max_l|apply Q.max_lub; lra].
  - destruct ns; cbn [resetZoom scale]; lra.
  - unfold handleWheel. destruct (negb (wheel_should_zoom isMac ev)); [lra|].
    cbv zeta. destruct rect as [r|]; [|lra].
    match goal with
    | |- context [Qeq_bool ?n (scale vt)] => destruct (Qeq_bool n (scale vt))
    end; cbn [negb scale zoom_about]; [lra|apply clamp_bounds].
  - unfold handleTouchMove. destruct touches as [|t1 [|t2 [|t3 rest]]].
    + destruct ts; cbn [fst]; lra.
    + destruct ip; cbn [fst scale]; lra.
    + destruct ts as [s|]; cbn [fst]; [|lra].
      destruct rect as [r|]; [|lra].
      destruct (handlePinchMove s vt (dist t1 t2)) as [v|] eqn:E.
      * exact (proj1 (proj1 (pinch_result s vt (dist t1 t2)) v E)).
      * exists t1, t2, s, ip, ps. split; [reflexivity|split; [discriminate|]].
        exact (pinch_nan s vt (dist t1 t2) E).
    + destruct ts; cbn [fst]; lra.
  - destruct ip; cbn [handleCanvasMouseMove scale]; lra.
Qed.

(** Whatever sequence of zoom-button clicks, resets, wheel steps, touch
    moves and mouse pans is applied, a scale in [[0.1, 3]] stays in
    [[0.1, 3]]; the one way out is a pinch move setting the [NaN]
    transform, which needs a touch state whose fingers started at one
    point (and are at one point again, or whose recorded scale is 0). *)
Theorem viewport_scale_stays_in_range dist ns w h rect evs vt :
  0.1 <= scale vt <= 3 ->
  match viewport_run dist ns w h rect vt evs with
  | Some v => 0.1 <= scale v <= 3
  | None => exists t1 t2 s ip ps, In (EvTouchMove [t1; t2] (Some s) ip ps) evs /\
            rect <> None /\ initialDistance s == 0 /\
            (dist t1 t2 == 0 \/ initialScale s == 0)
  end.
Proof.
  revert vt. induction evs as [|e evs IH]; intros vt H; [exact H|].
  cbn [viewport_run]. pose proof (viewport_step_range dist ns w h rect vt e H) as S.
  destruct (viewport_step dist ns w h rect vt e) as [v|].
  - specialize (IH v S). destruct (viewport_run dist ns w h rect v evs); [exact IH|].
    destruct IH as (t1 & t2 & s & ip & ps & Hin & R).
    exists t1, t2, s, ip, ps. split; [right; exact Hin|exact R].
  - destruct S as (t1 & t2 & s & ip & ps & -> & R).
    exists t1, t2, s, ip, ps. split; [left; reflexivity|exact R].
Qed.

Lemma viewport_scale_stays_in_range_witness :
  0.1 <= scale (mkVT 0 0 1) <= 3 /\
  match viewport_run (fun _ _ => 1) [] 800 600 (Some (mkRect 0 0)) (mkVT 0 0 1)
          [EvZoomIn; EvWheel false (mkWheel false (-100) 10 10);
           EvTouchMove [mkTouchPt 0 0; mkTouchPt 1 0] (Some (mkTouch 0 1 (mkPos 0 0)))
             false (mkPos 0 0); EvZoomOut] with
  | Some v => 0.1 <= scale v <= 3
  | None => False
  end.
Proof.
  assert (H : 0.1 <= scale (mkVT 0 0 1) <= 3) by (cbn [scale]; lra).
  split; [exact H|].
  exact (viewport_scale_stays_in_range (fun _ _ => 1) [] 800 600 (Some (mkRect 0 0))
           [EvZoomIn; EvWheel false (mkWheel false (-100) 10 10);
            EvTouchMove [mkTouchPt 0 0; mkTouchPt 1 0] (Some (mkTouch 0 1 (mkPos 0 0)))
              false (mkPos 0 0); EvZoomOut]
           (mkVT 0 0 1) H).
Defined.

Lemma top_left_fold rest n0 :
  let c := fold_left (fun closest node =>
             if Qltb (x (position node) + y (position node))
                     (x (position closest) + y (position closest))
             then node else closest) rest n0 in
  In c (n0 :: rest) /\
  forall m, In m (n0 :: rest) ->
    x (position c) + y (position c) <= x (position m) + y (position m).
Proof.
  revert n0. induction rest as [|a rest IH]; intros n0; cbn zeta.
  - simpl. split; [left; reflexivity|]. intros m [<-|[]]. apply Qle_refl.
  - cbn [fold_left].
    set (n1 := if Qltb (x (position a) + y (position a))
                       (x (position n0) + y (position n0)) then a else n0).
    destruct (IH n1) as [Hin Hmin].
    set (c := fold_left _ rest n1) in *.
    assert (Hn1 : (n1 = a \/ n1 = n0) /\
                  x (position n1) + y (position n1) <= x (position a) + y (position a) /\
                  x (position n1) + y (position n1) <= x (position n0) + y (position n0)).
    { unfold n1. destruct (Qltb _ _) eqn:E.
      - apply Qltb_iff in E. split; [left; reflexivity|]. split; [apply Qle_refl|].
        apply Qlt_le_weak. exact E.
      - split; [right; reflexivity|]. split; [|apply Qle_refl].
        apply Qnot_lt_le. intros E'. apply Qltb_iff in E'. congruence. }
    destruct Hn1 as (Hn1 & Ha & Hn0).
    assert (Hc : x (position c) + y (position c) <= x (position n1) + y (position n1))
      by (apply Hmin; left; reflexivity).
    split.
    + destruct Hin as [E|E].
      * destruct Hn1 as [Hn1|Hn1]; rewrite <- E, Hn1; [right; left|left]; reflexivity.
      * right. right. exact E.
    + intros m [<-|[<-|Hm]].
      * apply (Qle_trans _ _ _ Hc Hn0).
      * apply (Qle_trans _ _ _ Hc Ha).
      * apply Hmin. right. exact Hm.
Qed.

(** [resetZoom] goes back to scale 1 at the origin without nodes;
    otherwise it puts the centre of a node with the smallest [x + y] at
    the centre of the canvas, at scale 1. *)
Theorem reset_zoom_centers_top_left ns w h :
  resetZoom [] w h = mkVT 0 0 1 /\
  (ns <> [] -> exists n, In n ns /\
     (forall m, In m ns -> x (position n) + y (position n) <= x (position m) + y (position m)) /\
     scale (resetZoom ns w h) = 1 /\
     (x (position n) + NODE_WIDTH / 2) * scale (resetZoom ns w h) + tx (resetZoom ns w h) == w / 2 /\
     (y (position n) + NODE_HEIGHT / 2) * scale (resetZoom ns w h) + ty (resetZoom ns w h) == h / 2).
Proof.
  split; [reflexivity|]. intros Hne.
  destruct ns as [|n0 rest]; [contradiction|].
  destruct (top_left_fold rest n0) as [Hin Hmin].
  eexists. split; [exact Hin|]. split; [exact Hmin|].
  cbn [resetZoom scale tx ty]. split; [reflexivity|]. split; ring.
Qed.

Lemma reset_zoom_centers_top_left_witness :
  [mkNode "A" "t" (mkPos 300 10) JNull; mkNode "B" "t" (mkPos 20 40) JNull] <> [] /\
  scale (resetZoom [mkNode "A" "t" (mkPos 300 10) JNull; mkNode "B" "t" (mkPos 20 40) JNull]
           1000 800) = 1.
Proof.
  assert (H : [mkNode "A" "t" (mkPos 300 10) JNull; mkNode "B" "t" (mkPos 20 40) JNull] <> [])
    by discriminate.
  split; [exact H|].
  destruct (proj2 (reset_zoom_centers_top_left _ 1000 800) H) as (n & _ & _ & E & _).
  exact E.
Defined.

(** Two fingers that move without changing their distance change nothing:
    after a two-finger [handleTouchStart] (with the canvas measured) a
    [handleTouchMove] at the same finger distance gives back the viewport
    transform, up to [==], whatever the fingers' new centre (the handler
    does not pan with two fingers). *)
Theorem pinch_without_spread_change_keeps_view dist t1 t2 t1' t2' target r vt ts ip ps :
  0.1 <= scale vt <= 3 -> ~ dist t1 t2 == 0 -> dist t1' t2' == dist t1 t2 ->
  let '(ts', ip', ps', pd) := handleTouchStart dist [t1; t2] target (Some r) vt ts ip ps in
  pd = true /\
  exists vt', fst (handleTouchMove dist [t1'; t2'] ts' ip' ps' (Some r) vt) = Some vt' /\
  tx vt' == tx vt /\ ty vt' == ty vt /\ scale vt' == scale vt.
Proof.
  intros [H1 H2] Hd Hd'. cbn [handleTouchStart handleTouchMove fst].
  erewrite (proj2 (pinch_result (mkTouch (dist t1 t2) (scale vt) _) vt (dist t1' t2')) Hd).
  cbn [initialDistance initialScale initialCenter].
  split; [reflexivity|]. eexists. split; [reflexivity|].
  assert (Hs : ~ scale vt == 0) by (intros E; rewrite E in H1; lra).
  assert (E1 : scale vt * (dist t1' t2' / dist t1 t2) == scale vt)
    by (rewrite Hd'; field; exact Hd).
  assert (E2 : Qmax 0.1 (Qmin 3 (scale vt * (dist t1' t2' / dist t1 t2))) == scale vt).
  { rewrite E1. assert (E3 : Qmin 3 (scale vt) == scale vt) by (apply Q.min_r; exact H2).
    rewrite E3. apply Q.max_r. exact H1. }
  unfold zoom_about. cbn [tx ty scale]. rewrite E2.
  split; [field; exact Hs|]. split; [field; exact Hs|reflexivity].
Qed.

Lemma pinch_without_spread_change_keeps_view_witness :
  let dist := fun a b : Touch => touch_clientX b - touch_clientX a in
  (0.1 <= scale (mkVT 3 4 2) <= 3 /\ ~ dist (mkTouchPt 0 0) (mkTouchPt 10 0) == 0 /\
   dist (mkTouchPt 5 5) (mkTouchPt 15 5) == dist (mkTouchPt 0 0) (mkTouchPt 10 0)) /\
  let '(ts', ip', ps', pd) :=
    handleTouchStart dist [mkTouchPt 0 0; mkTouchPt 10 0] (mkTarget true "DIV")
      (Some (mkRect 1 1)) (mkVT 3 4 2) None false (mkPos 0 0) in
  pd = true /\
  exists vt', fst (handleTouchMove dist [mkTouchPt 5 5; mkTouchPt 15 5] ts' ip' ps'
                     (Some (mkRect 1 1)) (mkVT 3 4 2)) = Some vt' /\
  tx vt' == 3 /\ ty vt' == 4 /\ scale vt' == 2.
Proof.
  intros dist.
  assert (H1 : 0.1 <= scale (mkVT 3 4 2) <= 3) by (cbn [scale]; lra).
  assert (H2 : ~ dist (mkTouchPt 0 0) (mkTouchPt 10 0) == 0) by discriminate.
  assert (H3 : dist (mkTouchPt 5 5) (mkTouchPt 15 5) == dist (mkTouchPt 0 0) (mkTouchPt 10 0))
    by reflexivity.
  split; [split; [exact H1|split; [exact H2|exact H3]]|].
  exact (pinch_without_spread_change_keeps_view dist
           (mkTouchPt 0 0) (mkTouchPt 10 0) (mkTouchPt 5 5) (mkTouchPt 15 5)
           (mkTarget true "DIV") (mkRect 1 1) (mkVT 3 4 2) None false (mkPos 0 0)
           H1 H2 H3).
Defined.

(** ** Snapping bounds *)

Lemma Qltb_compat a a' b : a == a' -> Qltb a b = Qltb a' b.
Proof.
  intros E. destruct (Qltb a b) eqn:E1, (Qltb a' b) eqn:E2; try reflexivity; exfalso.
  - apply Qltb_iff in E1. rewrite E in E1. apply Qltb_iff in E1. congruence.
  - apply Qltb_iff in E2. rewrite <- E in E2. apply Qltb_iff in E2. congruence.
Qed.

Lemma vtests_same d o :
  let b := Qltb (Qabs (x (position d) - x (position o))) SNAP_THRESHOLD in
  vtests d o = [b; b; b].
Proof.
  unfold vtests. cbn zeta.
  rewrite (Qltb_compat (Qabs (x (position d) + NODE_WIDTH / 2 - (x (position o) + NODE_WIDTH / 2)))
             (Qabs (x (position d) - x (position o))) SNAP_THRESHOLD)
    by (apply Qabs_wd; ring).
  rewrite (Qltb_compat (Qabs (x (position d) + NODE_WIDTH - (x (position o) + NODE_WIDTH)))
             (Qabs (x (position d) - x (position o))) SNAP_THRESHOLD)
    by (apply Qabs_wd; ring).
  reflexivity.
Qed.

Lemma htests_same d o :
  let b := Qltb (Qabs (y (position d) - y (position o))) SNAP_THRESHOLD in
  htests d o = [b; b; b].
Proof.
  unfold htests. cbn zeta.
  rewrite (Qltb_compat (Qabs (y (position d) + NODE_HEIGHT / 2 - (y (position o) + NODE_HEIGHT / 2)))
             (Qabs (y (position d) - y (position o))) SNAP_THRESHOLD)
    by (apply Qabs_wd; ring).
  rewrite (Qltb_compat (Qabs (y (position d) + NODE_HEIGHT - (y (position o) + NODE_HEIGHT)))
             (Qabs (y (position d) - y (position o))) SNAP_THRESHOLD)
    by (apply Qabs_wd; ring).
  reflexivity.
Qed.

Lemma last_match_close (tests : NodeData -> NodeData -> list bool) (coord : NodeData -> Q)
    d others o :
  (forall o, tests d o = let b := Qltb (Qabs (coord d - coord o)) SNAP_THRESHOLD in [b; b; b]) ->
  last_match tests d others = Some o ->
  Qabs (coord o - coord d) < SNAP_THRESHOLD.
Proof.
  intros Ht E. unfold last_match in E. apply find_some in E as [_ Hc].
  rewrite Ht in Hc. cbn zeta in Hc.
  destruct (Qltb (Qabs (coord d - coord o)) SNAP_THRESHOLD) eqn:Eb.
  - apply Qltb_iff in Eb. rewrite Qabs_Qminus. exact Eb.
  - simpl in Hc. rewrite andb_false_r in Hc. discriminate.
Qed.

(** [calculateSnapping] moves the dragged node by less than the snap
    threshold (8) on each axis. *)
Theorem snapping_moves_less_than_threshold d others :
  let p := fst (calculateSnapping d others) in
  Qabs (x p - x (position d)) < SNAP_THRESHOLD /\
  Qabs (y p - y (position d)) < SNAP_THRESHOLD.
Proof.
  destruct (fold_snap_spec d others (mkAcc (x (position d)) (y (position d)) []))
    as (Hx & Hy & _).
  cbn zeta in Hx, Hy. cbn [snappedX snappedY] in Hx, Hy.
  unfold calculateSnapping. cbn zeta. cbn [fst x y]. rewrite Hx, Hy. split.
  - destruct (last_match vtests d others) as [o|] eqn:E.
    + exact (last_match_close vtests (fun n => x (position n)) d others o (vtests_same d) E).
    + setoid_replace (x (position d) - x (position d)) with 0 by ring. reflexivity.
  - destruct (last_match htests d others) as [o|] eqn:E.
    + exact (last_match_close htests (fun n => y (position n)) d others o (htests_same d) E).
    + setoid_replace (y (position d) - y (position d)) with 0 by ring. reflexivity.
Qed.

Lemma matches_sum (tests : NodeData -> NodeData -> list bool) (coord : NodeData -> Q) d l :
  (forall o, tests d o = let b := Qltb (Qabs (coord d - coord o)) SNAP_THRESHOLD in [b; b; b]) ->
  list_sum (map (fun o => matches d o (tests d o)) l) =
  (3 * List.length (filter (fun o => negb (String.eqb (id o) (id d)) &&
                          Qltb (Qabs (coord d - coord o)) SNAP_THRESHOLD) l))%nat.
Proof.
  intros Ht. induction l as [|o l IH]; [reflexivity|].
  cbn [map list_sum fold_right filter]. fold (list_sum (map (fun o => matches d o (tests d o)) l)).
  rewrite IH. unfold matches. rewrite Ht. cbn zeta.
  destruct (String.eqb (id o) (id d)); cbn [negb andb]; [reflexivity|].
  destruct (Qltb (Qabs (coord d - coord o)) SNAP_THRESHOLD); simpl; lia.
Qed.

(** The three tests of an axis agree (the centre and far-edge distances
    equal the near-edge distance), so [calculateSnapping] pushes guides
    in threes: three vertical guides for each other node whose x is less
    than 8 from the dragged node's, three horizontal ones for each other
    node whose y is. *)
Theorem snapping_guides_in_threes d others :
  let gs := snd (calculateSnapping d others) in
  count_type Vertical gs =
    (3 * List.length (filter (fun o => negb (String.eqb (id o) (id d)) &&
           Qltb (Qabs (x (position d) - x (position o))) SNAP_THRESHOLD) others))%nat /\
  count_type Horizontal gs =
    (3 * List.length (filter (fun o => negb (String.eqb (id o) (id d)) &&
           Qltb (Qabs (y (position d) - y (position o))) SNAP_THRESHOLD) others))%nat.
Proof.
  destruct (fold_snap_spec d others (mkAcc (x (position d)) (y (position d)) []))
    as (_ & _ & Hv & Hh).
  cbn zeta in Hv, Hh. unfold calculateSnapping. cbn zeta. cbn [snd].
  rewrite Hv, Hh. cbn [guides count_type filter List.length]. split.
  - exact (matches_sum vtests (fun n => x (position n)) d others (vtests_same d)).
  - exact (matches_sum htests (fun n => y (position n)) d others (htests_same d)).
Qed.
